(** * The Munich student-help query endpoint (app/api/prof-query/route.ts)

    A shallow embedding of the route handler and of its helpers, and the
    properties of the retrieval pipeline stated over it.

    - JavaScript strings are sequences of UTF-16 code units ([list N]).
    - JavaScript numbers are IEEE-754 binary64 values (the primitive [float]).
    - The request body is an untyped JSON value ([Value]); the records the
      vector index returns are read through their metadata fields.
    - The handler runs in a small monad that logs every external call and
      carries thrown errors to the handler's [catch]. *)

From Stdlib Require Import ZArith NArith Lia Floats Bool String Ascii.
From stdpp Require Import base list gmap sorting pretty.

Set Warnings "-inexact-float,-register-all,-clear-no-such-hyp".

Local Open Scope Z_scope.

(* ================================================================== *)
(** * JavaScript strings *)

(** A string is the sequence of its UTF-16 code units. *)
Definition jsstring : Type := list N.

(** An ASCII literal as a JavaScript string. *)
Definition lit (s : string) : jsstring :=
  List.map N_of_ascii (list_ascii_of_string s).

(** The quotation mark, for literals that contain one. *)
Definition dquote : jsstring := [34%N].

Definition nonempty (s : jsstring) : bool :=
  match s with [] => false | _ => true end.

(** [a || d] where [a] is a possibly missing string and [d] a string:
    the empty string and [undefined] are falsy. *)
Definition str_or (a : option jsstring) (d : jsstring) : jsstring :=
  match a with
  | Some s => if nonempty s then s else d
  | None => d
  end.

Definition truthy (a : option jsstring) : bool :=
  match a with Some s => nonempty s | None => false end.

Definition jsstring_eqb (a b : jsstring) : bool := bool_decide (a = b).

(** ** Surrogates and code points *)

Definition is_surrogate (c : N) : bool := ((55296 <=? c) && (c <=? 57343))%N.
Definition is_high_surrogate (c : N) : bool := ((55296 <=? c) && (c <=? 56319))%N.
Definition is_low_surrogate (c : N) : bool := ((56320 <=? c) && (c <=? 57343))%N.

(** [Array.from(s)]: the string iterator yields one element per code point,
    a surrogate pair being one element and a lone surrogate one element. *)
Fixpoint Array_from (s : jsstring) : list jsstring :=
  match s with
  | [] => []
  | c :: s' =>
      match s' with
      | d :: s'' =>
          if is_high_surrogate c && is_low_surrogate d
          then [c; d] :: Array_from s''
          else [c] :: Array_from s'
      | [] => [[c]]
      end
  end.

(** [arr.slice(0, e)] for an integral [e]: a negative [e] counts from the
    end of the array. *)
Definition slice0 {A : Type} (l : list A) (e : Z) : list A :=
  let len := Z.of_nat (length l) in
  let final := if e <? 0 then Z.max (len + e) 0 else Z.min e len in
  take (Z.to_nat final) l.

(** [arr.slice(-k)] for [k > 0]: the last [k] elements. *)
Definition slice_last {A : Type} (k : nat) (l : list A) : list A :=
  drop (length l - k)%nat l.

(** [arr.join(sep)] on an array of strings. *)
Fixpoint join (sep : jsstring) (l : list jsstring) : jsstring :=
  match l with
  | [] => []
  | [x] => x
  | x :: l' => x ++ sep ++ join sep l'
  end.

(** ** White space

    The class [\s] of regular expressions and the characters [trim] strips
    are the same set: WhiteSpace and LineTerminator of ECMA-262. *)
Definition is_space (c : N) : bool :=
  (((9 <=? c) && (c <=? 13)) || (c =? 32) || (c =? 160) || (c =? 5760)
   || ((8192 <=? c) && (c <=? 8202)) || (c =? 8232) || (c =? 8233)
   || (c =? 8239) || (c =? 8287) || (c =? 12288) || (c =? 65279))%N.

Fixpoint trimStart (s : jsstring) : jsstring :=
  match s with
  | [] => []
  | c :: s' => if is_space c then trimStart s' else s
  end.

Definition trimEnd (s : jsstring) : jsstring := rev (trimStart (rev s)).

Definition trim (s : jsstring) : jsstring := trimEnd (trimStart s).

(** [s.replace(/\s+/g, " ")]: every maximal run of white space becomes one
    space. [in_run] tells that the previous unit was white space. *)
Fixpoint collapse_from (in_run : bool) (s : jsstring) : jsstring :=
  match s with
  | [] => []
  | c :: s' =>
      if is_space c
      then (if in_run then collapse_from true s' else 32%N :: collapse_from true s')
      else c :: collapse_from false s'
  end.

Definition collapse_spaces (s : jsstring) : jsstring := collapse_from false s.

(** ** Regular expressions of the form [/(w1|w2|...)/]

    [re.test(s)] without flags searches [s] for a match at any position. *)
Fixpoint starts_with (w s : jsstring) : bool :=
  match w, s with
  | [], _ => true
  | _ :: _, [] => false
  | a :: w', b :: s' => (a =? b)%N && starts_with w' s'
  end.

Fixpoint regex_test (alts : list jsstring) (s : jsstring) : bool :=
  existsb (fun w => starts_with w s) alts
  || match s with
     | [] => false
     | _ :: s' => regex_test alts s'
     end.

(** ** ASCII lower-casing

    [String.prototype.toLowerCase] follows the Unicode case mappings, which
    are not part of the program: the development takes it as a parameter.
    On ASCII text it is the function below, used in the examples. *)
Definition ascii_lower_unit (c : N) : N :=
  if ((65 <=? c) && (c <=? 90))%N then (c + 32)%N else c.

Definition asciiLower (s : jsstring) : jsstring := List.map ascii_lower_unit s.

(** Decimal rendering of an array index, as in a template literal. *)
Definition String_of_nat (n : nat) : jsstring := lit (pretty n).

(* ================================================================== *)
(** * JavaScript numbers

    Helper notions on the specification of binary64 ([SpecFloat]) used to
    reason about the comparator of the sort. *)

Definition sf_signed (s : bool) (x : spec_float) : Prop :=
  match x with
  | S754_finite s' _ _ | S754_infinity s' => s' = s
  | _ => False
  end.

Definition sf_not_nan (x : spec_float) : Prop :=
  match x with S754_nan => False | _ => True end.

Definition sf_finite (x : spec_float) : Prop :=
  match x with S754_zero _ | S754_finite _ _ _ => True | _ => False end.

Definition sf_valid (x : spec_float) : Prop := valid_binary x = true.

Definition sf_scaled (s : bool) (m : positive) (e ez : Z) : Z :=
  cond_Zopp s (Z.pos (fst (shl_align m e ez))).

(** An order embedding of the non-NaN binary64 values into [Z]. *)
Definition sf_key (x : spec_float) : Z :=
  match x with
  | S754_zero _ => 0
  | S754_infinity s => cond_Zopp s (2 ^ 53 * 4096)
  | S754_nan => 0
  | S754_finite s m e => cond_Zopp s ((e - emin + 1) * 2 ^ 53 + Z.pos m)
  end.

Definition fkey (f : float) : Z := sf_key (Prim2SF f).

(** The numbers the vector index can return: JSON has no NaN. *)
Definition not_nan (f : float) : Prop := is_nan f = false.

(* ================================================================== *)
(** * Untyped values and thrown errors *)

(** What [req.json()] yields, and [undefined] for absent properties.
    [VObj] lists the own properties of an object, each key once. *)
Inductive Value : Type :=
| VUndefined
| VNull
| VBool (b : bool)
| VNum (n : float)
| VStr (s : jsstring)
| VArr (items : list Value)
| VObj (fields : list (jsstring * Value)).

(** What a [catch] receives: an [Error] with its message, or another value. *)
Inductive Thrown : Type :=
| ErrorObj (message : jsstring)
| NonError.

Definition TypeError (message : jsstring) : Thrown := ErrorObj message.

Fixpoint lookup_field (k : jsstring) (fields : list (jsstring * Value)) : Value :=
  match fields with
  | [] => VUndefined
  | (k', v) :: rest => if jsstring_eqb k k' then v else lookup_field k rest
  end.

Definition is_nullish (v : Value) : bool :=
  match v with VUndefined | VNull => true | _ => false end.

(** [v.k] for one of the property names the handler reads ([messages],
    [role], [content]): only an object can own them, and reading a property
    of [null] or [undefined] throws. *)
Definition get_prop (v : Value) (k : jsstring) : Thrown + Value :=
  match v with
  | VUndefined =>
      inl (TypeError (lit "Cannot read properties of undefined (reading '" ++ k ++ lit "')"))
  | VNull =>
      inl (TypeError (lit "Cannot read properties of null (reading '" ++ k ++ lit "')"))
  | VObj fields => inr (lookup_field k fields)
  | _ => inr VUndefined
  end.

(** [v?.k] *)
Definition get_prop_opt (v : Value) (k : jsstring) : Value :=
  match get_prop v k with
  | inr x => x
  | inl _ => VUndefined
  end.

(** ToBoolean *)
Definition truthy_value (v : Value) : bool :=
  match v with
  | VUndefined | VNull => false
  | VBool b => b
  | VNum n => negb ((n =? 0)%float || is_nan n)
  | VStr s => nonempty s
  | VArr _ | VObj _ => true
  end.

(** [v !== "..."] against a string literal *)
Definition strict_neq_str (v : Value) (s : jsstring) : bool :=
  match v with
  | VStr s' => negb (jsstring_eqb s' s)
  | _ => true
  end.

(* ================================================================== *)
(** * Records of the vector index and of the response *)

(** The metadata stored with a knowledge-base entry; every field is a string
    when present. *)
Record Metadata : Type := mkMetadata {
  md_entity_type : option jsstring;
  md_kind : option jsstring;
  md_entity_id : option jsstring;
  md_name : option jsstring;
  md_section : option jsstring;
  md_text : option jsstring;
  md_text_preview : option jsstring;
  md_chunk_block : option jsstring;
  md_chunkBlock : option jsstring;
}.

(** [{}] *)
Definition no_metadata : Metadata :=
  mkMetadata None None None None None None None None None.

(** A scored record returned by the index query. *)
Record Match : Type := mkMatch {
  m_id : option jsstring;
  m_score : option float;
  m_metadata : option Metadata;
}.

(** [{ ...m, _boostedScore }] *)
Record Boosted : Type := mkBoosted {
  b_match :> Match;
  _boostedScore : float;
}.

Inductive Intent : Type := dorm | study_place | general.

Definition Intent_str (i : Intent) : jsstring :=
  match i with
  | dorm => lit "dorm"
  | study_place => lit "study_place"
  | general => lit "general"
  end.

Record MatchForClient : Type := mkMatchForClient {
  mc_score : float;
  mc_boostedScore : float;
  mc_type : jsstring;
  mc_title : jsstring;
  mc_snippet : jsstring;
}.

(** The object given to [NextResponse.json]; an absent key is [None]. *)
Record ResponseBody : Type := mkResponseBody {
  rb_error : option jsstring;
  rb_answer : option jsstring;
  rb_matches : option (list MatchForClient);
  rb_rewrittenQuestion : option jsstring;
  rb_intent : option jsstring;
}.

Record Response : Type := mkResponse {
  status : Z;
  body : ResponseBody;
}.

(* ================================================================== *)
(** * The external services *)

Record ChatParam : Type := mkChatParam {
  cp_role : Value;
  cp_content : Value;
}.

Record ChatRequest : Type := mkChatRequest {
  cr_model : jsstring;
  cr_temperature : float;
  cr_messages : list ChatParam;
}.

Record ChatMessage : Type := mkChatMessage { cm_content : option jsstring }.
Record Choice : Type := mkChoice { ch_message : option ChatMessage }.
Record ChatCompletion : Type := mkChatCompletion { cc_choices : list Choice }.

Record EmbeddingRequest : Type := mkEmbeddingRequest {
  er_model : jsstring;
  er_dimensions : Z;
  er_input : jsstring;
}.

Record EmbeddingItem : Type := mkEmbeddingItem { ei_embedding : list float }.
Record EmbeddingResponse : Type := mkEmbeddingResponse { emb_data : list EmbeddingItem }.

Record QueryPayload : Type := mkQueryPayload {
  qp_vector : list float;
  qp_topK : Z;
  qp_includeMetadata : bool;
  qp_namespace : option jsstring;
}.

Record QueryResponse : Type := mkQueryResponse { qr_matches : option (list Match) }.

(** One outbound call: the chat model (rewrite and synthesis), the embedding
    model, the vector index. *)
Inductive Call : Type :=
| CallChat (r : ChatRequest)
| CallEmbed (r : EmbeddingRequest)
| CallQuery (p : QueryPayload).

(** The services answer as they please: a reply may depend on the calls
    made so far, and a call may throw. *)
Record Services : Type := mkServices {
  chat_create : list Call -> ChatRequest -> Thrown + ChatCompletion;
  embeddings_create : list Call -> EmbeddingRequest -> Thrown + EmbeddingResponse;
  index_query : list Call -> QueryPayload -> Thrown + option QueryResponse;
}.

(** ** The monad of the handler: a log of the calls made, and exceptions *)

Definition M (A : Type) : Type := list Call -> (Thrown + A) * list Call.

Definition ret {A : Type} (a : A) : M A := fun log => (inr a, log).

Definition throw {A : Type} (e : Thrown) : M A := fun log => (inl e, log).

Definition bindM {A B : Type} (c : M A) (k : A -> M B) : M B :=
  fun log =>
    match c log with
    | (inr a, log') => k a log'
    | (inl e, log') => (inl e, log')
    end.

Definition lift {A : Type} (r : Thrown + A) : M A :=
  match r with inr a => ret a | inl e => throw e end.

(** [try { c } catch (err) { h }] *)
Definition try_catch {A : Type} (c : M A) (h : Thrown -> M A) : M A :=
  fun log =>
    match c log with
    | (inr a, log') => (inr a, log')
    | (inl e, log') => h e log'
    end.

Notation "'let*' x ':=' c1 'in' c2" := (bindM c1 (fun x => c2))
  (at level 10, x name, c1 at level 100, c2 at level 200).

(** [arr.map(f)] for an [f] that may throw. *)
Fixpoint mapM {A B : Type} (f : A -> M B) (l : list A) : M (list B) :=
  match l with
  | [] => ret []
  | x :: l' => let* y := f x in let* ys := mapM f l' in ret (y :: ys)
  end.

(** ** [Array.prototype.sort]

    The sort is stable (ECMA-262 since 2019). With a consistent comparator
    the result is the one stable ordering, which insertion from the right
    computes: an element moves behind a later one only when the comparator
    is positive, a NaN result counting as [+0]. *)
Fixpoint sort_insert {A : Type} (comparefn : A -> A -> float) (x : A) (l : list A) : list A :=
  match l with
  | [] => [x]
  | y :: l' =>
      if (0 <? comparefn x y)%float
      then y :: sort_insert comparefn x l'
      else x :: l
  end.

Definition Array_sort {A : Type} (comparefn : A -> A -> float) (l : list A) : list A :=
  foldr (sort_insert comparefn) [] l.

(* ================================================================== *)
(** * route.ts *)

Definition nl : jsstring := [10%N].

Section Route.

(** [String.prototype.toLowerCase] *)
Variable toLowerCase : jsstring -> jsstring.

(** The module constant [namespaceFallback], read from the environment. *)
Variable namespaceFallback : option jsstring.

(** The clients [openai] and [index]. *)
Variable services : Services.

Definition call_chat (r : ChatRequest) : M ChatCompletion :=
  fun log => (chat_create services log r, log ++ [CallChat r]).

Definition call_embed (r : EmbeddingRequest) : M EmbeddingResponse :=
  fun log => (embeddings_create services log r, log ++ [CallEmbed r]).

Definition call_query (p : QueryPayload) : M (option QueryResponse) :=
  fun log => (index_query services log p, log ++ [CallQuery p]).

Definition stripLoneSurrogates (s : option jsstring) : jsstring :=
  List.filter (fun c => negb (is_surrogate c)) (str_or s []).

Definition safeTruncateByCodepoints (s : option jsstring) (maxLen : Z) : jsstring :=
  join [] (slice0 (Array_from (str_or s [])) maxLen).

Definition makePreview (s : option jsstring) (maxLen : Z) : jsstring :=
  stripLoneSurrogates
    (Some (safeTruncateByCodepoints (Some (trim (collapse_spaces (str_or s [])))) maxLen)).

Definition embedQuery (q : jsstring) : M (list float) :=
  let* emb := call_embed {| er_model := lit "text-embedding-3-small";
                            er_dimensions := 512;
                            er_input := stripLoneSurrogates (Some q) |} in
  match emb_data emb with
  | item :: _ => ret (ei_embedding item)
  | [] => throw (TypeError (lit "Cannot read properties of undefined (reading 'embedding')"))
  end.

Definition pineconeQuery (vector : list float) (topK : Z) : M (option QueryResponse) :=
  call_query {| qp_vector := vector;
                qp_topK := topK;
                qp_includeMetadata := true;
                qp_namespace := if truthy namespaceFallback then namespaceFallback else None |}.

Definition housing_words : list jsstring :=
  [lit "dorm"; lit "rent"; lit "room"; lit "apartment"; lit "housing"; lit "wohnheim"].

Definition study_words : list jsstring :=
  [lit "study"; lit "library"; lit "quiet"; lit "wifi"; lit "open"; lit "cafe";
   lit "outlet"; lit "socket"].

Definition inferIntent (q : option jsstring) : Intent :=
  let s := toLowerCase (str_or q []) in
  if regex_test housing_words s then dorm
  else if regex_test study_words s then study_place
  else general.

(** [match?.metadata || {}] *)
Definition metadata_of (m : Match) : Metadata :=
  match m_metadata m with Some md => md | None => no_metadata end.

Definition Intent_eqb (a b : Intent) : bool :=
  match a, b with
  | dorm, dorm | study_place, study_place | general, general => true
  | _, _ => false
  end.

Definition scoreBoost (m : Match) (intent : Intent) : float :=
  let md := metadata_of m in
  let t := toLowerCase (str_or (md_entity_type md) (str_or (md_kind md) [])) in
  if Intent_eqb intent dorm && jsstring_eqb t (lit "dorm") then 0.08%float
  else if Intent_eqb intent study_place && jsstring_eqb t (lit "study_place") then 0.08%float
  else if Intent_eqb intent general
          && (jsstring_eqb t (lit "text") || jsstring_eqb t (lit "text_chunk")) then 0.03%float
  else 0%float.

Definition dedupeKey (m : Match) : jsstring :=
  let md := metadata_of m in
  if truthy (md_entity_type md) && truthy (md_entity_id md)
  then default [] (md_entity_type md) ++ lit ":" ++ default [] (md_entity_id md)
  else if truthy (md_name md) then lit "name:" ++ default [] (md_name md)
  else if truthy (md_section md) then lit "section:" ++ default [] (md_section md)
  else lit "id:" ++ str_or (m_id m) [].

(** [Number(m.score ?? 0)] *)
Definition score_of (m : Match) : float :=
  match m_score m with Some s => s | None => 0%float end.

Definition matchesToClient (matches : list Match) (intent : Intent) : list MatchForClient :=
  (fun m =>
    let md := metadata_of m in
    let type := str_or (md_entity_type md) (str_or (md_kind md) (lit "unknown")) in
    let title := str_or (md_name md) (str_or (md_section md)
                   (str_or (md_chunk_block md) (str_or (md_chunkBlock md) (lit "(result)")))) in
    let text := str_or (md_text md) [] in
    let baseScore := score_of m in
    let boostedScore := (baseScore + scoreBoost m intent)%float in
    {| mc_score := baseScore;
       mc_boostedScore := boostedScore;
       mc_type := type;
       mc_title := title;
       mc_snippet := if truthy (md_text_preview md)
                     then makePreview (md_text_preview md) 220
                     else makePreview (Some text) 220 |}) <$> matches.

Definition buildContext (matches : list Match) : jsstring :=
  join (nl ++ nl ++ lit "---" ++ nl ++ nl)
    (imap (fun i m =>
       let md := metadata_of m in
       let type := str_or (md_entity_type md) (str_or (md_kind md) (lit "unknown")) in
       let title := str_or (md_name md) (str_or (md_section md)
                      (str_or (md_chunk_block md) (lit "(untitled)"))) in
       let text := trim (stripLoneSurrogates (Some (str_or (md_text md) []))) in
       join nl [lit "[Source " ++ String_of_nat (i + 1) ++ lit "] " ++ type ++ lit ": " ++ title;
                [];
                text]) matches).

(** [resp.choices[0]?.message?.content?.trim()] *)
Definition first_content_trimmed (resp : ChatCompletion) : option jsstring :=
  match cc_choices resp with
  | [] => None
  | choice :: _ =>
      match ch_message choice with
      | None => None
      | Some msg => option_map trim (cm_content msg)
      end
  end.

Definition rewrite_system_prompt : jsstring :=
  lit "You are a query rewriter for semantic search." ++ nl ++
  lit "Rewrite the user's latest message into a fully standalone question." ++ nl ++
  lit "Rules:" ++ nl ++
  lit "- Resolve pronouns and references using the conversation." ++ nl ++
  lit "- Preserve the user's intent; do not add facts." ++ nl ++
  lit "- Keep it short." ++ nl ++
  lit "Output ONLY the rewritten question (no quotes, no commentary).".

(** [messages[messages.length - 1]?.content] *)
Definition last_content (messages : list Value) : Value :=
  match last messages with
  | Some m => get_prop_opt m (lit "content")
  | None => VUndefined
  end.

Definition rewriteToStandalone (messages : list Value) : M Value :=
  let* history :=
    mapM (fun m =>
            let* role := lift (get_prop m (lit "role")) in
            let* content := lift (get_prop m (lit "content")) in
            ret {| cp_role := role; cp_content := content |})
         (slice_last 12 messages) in
  let* resp :=
    call_chat {| cr_model := lit "gpt-4o-mini";
                 cr_temperature := 0;
                 cr_messages :=
                   [ {| cp_role := VStr (lit "system");
                        cp_content := VStr rewrite_system_prompt |} ]
                   ++ history
                   ++ [ {| cp_role := VStr (lit "user");
                           cp_content :=
                             VStr (lit "Rewrite my latest message into a standalone question.") |} ] |} in
  ret (if truthy (first_content_trimmed resp)
       then VStr (str_or (first_content_trimmed resp) [])
       else if truthy_value (last_content messages) then last_content messages
       else VStr []).

Definition answer_system_prompt (intent : Intent) : jsstring :=
  lit "You are a helpful, friendly assistant inside a student-help website for Munich." ++ nl ++
  lit "Answer conversationally (natural language), not by dumping raw chunks." ++ nl ++
  lit "Use ONLY the provided context." ++ nl ++
  lit "If the context does not contain enough information, say what is missing and ask ONE short follow-up question." ++ nl ++
  lit "Do NOT mention Pinecone, embeddings, vectors, or retrieval." ++ nl ++
  lit "When recommending places, include: name + 2" ++ [8211%N] ++
  lit "4 key reasons (hours, quiet, wifi, free, rent, distance, etc.) if present." ++ nl ++
  lit "The user's intent is: " ++ Intent_str intent ++ lit ".".

Definition askLLM (finalQuestion : jsstring) (intent : Intent) (context : jsstring) : M jsstring :=
  let* completion :=
    call_chat {| cr_model := lit "gpt-4o-mini";
                 cr_temperature := 0.6;
                 cr_messages :=
                   [ {| cp_role := VStr (lit "system");
                        cp_content := VStr (answer_system_prompt intent) |};
                     {| cp_role := VStr (lit "user");
                        cp_content :=
                          VStr (lit "Question:" ++ nl ++ finalQuestion ++ nl ++ nl
                                ++ lit "Context:" ++ nl ++ context) |} ] |} in
  ret (str_or (first_content_trimmed completion) []).

(** ** The ranking block of [POST] *)

Definition compareFn (a b : Boosted) : float :=
  (_boostedScore b - _boostedScore a)%float.

(** [rawMatches.map(m => ({ ...m, _boostedScore: Number(m.score ?? 0) + scoreBoost(m, intent) }))] *)
Definition boost_all (rawMatches : list Match) (intent : Intent) : list Boosted :=
  (fun m => {| b_match := m;
               _boostedScore := (score_of m + scoreBoost m intent)%float |})
  <$> rawMatches.

(** [String(m?.metadata?.text || "").trim()] *)
Definition usable_text (m : Match) : jsstring :=
  trim (str_or (match m_metadata m with Some md => md_text md | None => None end) []).

(** The [for ... of] loop over the sorted candidates, with its [break] and
    its two [continue]s; [picked] and [seen] are the loop's variables. *)
Fixpoint pick_loop (boosted : list Boosted) (picked : list Boosted) (seen : gset jsstring)
  : list Boosted :=
  match boosted with
  | [] => picked
  | m :: rest =>
      if (8 <=? length picked)%nat then picked
      else
        let key := dedupeKey m in
        if bool_decide (key ∈ seen) then pick_loop rest picked seen
        else
          let text := usable_text m in
          if negb (nonempty text) then pick_loop rest picked seen
          else pick_loop rest (picked ++ [m]) ({[ key ]} ∪ seen)
  end.

(** Step 3 of [POST]: boost, sort, pick. *)
Definition rankAndDedupe (rawMatches : list Match) (intent : Intent) : list Boosted :=
  let boosted := Array_sort compareFn (boost_all rawMatches intent) in
  pick_loop boosted [] ∅.

(** ** The handler *)

Definition json_response (b : ResponseBody) (st : Z) : Response :=
  {| status := st; body := b |}.

Definition error_body (message : jsstring) : ResponseBody :=
  {| rb_error := Some message; rb_answer := None; rb_matches := None;
     rb_rewrittenQuestion := None; rb_intent := None |}.

Definition no_candidates_answer : jsstring :=
  lit "I couldn't find relevant information for that in the current knowledge base.".

Definition no_usable_answer : jsstring :=
  lit "I found related entries, but none had usable text to answer with.".

(** The handler from step 3 on, once the index has answered. *)
Definition respond (rewrittenQuestion : jsstring) (intent : Intent) (rawMatches : list Match)
  : M Response :=
  if negb (0 <? length rawMatches)%nat then
    ret (json_response
           {| rb_error := None;
              rb_answer := Some no_candidates_answer;
              rb_matches := Some [];
              rb_rewrittenQuestion := Some rewrittenQuestion;
              rb_intent := None |} 200)
  else
    let picked := rankAndDedupe rawMatches intent in
    if negb (0 <? length picked)%nat then
      ret (json_response
             {| rb_error := None;
                rb_answer := Some no_usable_answer;
                rb_matches := Some [];
                rb_rewrittenQuestion := Some rewrittenQuestion;
                rb_intent := None |} 200)
    else
      let context := buildContext (b_match <$> picked) in
      let* answer := askLLM rewrittenQuestion intent context in
      ret (json_response
             {| rb_error := None;
                rb_answer := Some answer;
                rb_matches := Some (matchesToClient (b_match <$> picked) intent);
                rb_rewrittenQuestion := Some rewrittenQuestion;
                rb_intent := Some (Intent_str intent) |} 200).

(** [body?.messages] *)
Definition body_messages (b : Value) : Value := get_prop_opt b (lit "messages").

(** The second validation: [!last || last.role !== "user" ||
    typeof last.content !== "string" || !last.content.trim()]. *)
Definition last_rejected (last : Value) : bool :=
  negb (truthy_value last)
  || strict_neq_str (get_prop_opt last (lit "role")) (lit "user")
  || match get_prop_opt last (lit "content") with
     | VStr c => negb (nonempty (trim c))
     | _ => true
     end.

Definition missing_messages_error : jsstring :=
  lit "Missing or invalid " ++ dquote ++ lit "messages" ++ dquote ++ lit " array in body".

Definition last_message_error : jsstring :=
  lit "The last message must be a user message with non-empty " ++ dquote ++ lit "content"
  ++ dquote ++ lit ".".

(** [res?.matches || []] *)
Definition rawMatches_of (res : option QueryResponse) : list Match :=
  match res with
  | Some r => match qr_matches r with Some l => l | None => [] end
  | None => []
  end.

(** The body of the [try] block. [rewrittenQuestion] is a string whenever
    the validation passed; [inferIntent] would throw on another truthy value,
    which has no [toLowerCase]. *)
Definition POST_try (req_json : Thrown + Value) : M Response :=
  let* b := lift req_json in
  match body_messages b with
  | VArr (first :: others) =>
      let messages := first :: others in
      let last := default VUndefined (last messages) in
      if last_rejected last then
        ret (json_response (error_body last_message_error) 400)
      else
        let* rewritten := rewriteToStandalone messages in
        let* rewrittenQuestion :=
          match rewritten with
          | VStr q => ret q
          | _ => throw (TypeError (lit "(q || " ++ dquote ++ dquote
                                   ++ lit ").toLowerCase is not a function"))
          end in
        let intent := inferIntent (Some rewrittenQuestion) in
        let* qVec := embedQuery rewrittenQuestion in
        let* res := pineconeQuery qVec 18 in
        let rawMatches := rawMatches_of res in
        respond rewrittenQuestion intent rawMatches
  | _ => ret (json_response (error_body missing_messages_error) 400)
  end.

(** The [catch] block. *)
Definition POST_catch (err : Thrown) : M Response :=
  let errorMessage :=
    match err with
    | ErrorObj message => message
    | NonError => lit "Internal server error"
    end in
  ret (json_response (error_body errorMessage) 500).

Definition POST (req_json : Thrown + Value) : M Response :=
  try_catch (POST_try req_json) POST_catch.

(* ================================================================== *)
(** * The notions the properties are stated with *)

(** ** Ranking *)

(** A candidate is usable when its metadata text is not empty after trimming. *)
Definition has_text (m : Match) : Prop := nonempty (usable_text m) = true.

#[global] Instance has_text_dec (m : Match) : Decision (has_text m) :=
  bool_eq_dec _ _.

(** The dedupe keys of the usable candidates, each once. *)
Definition eligible_keys (rawMatches : list Match) : list jsstring :=
  remove_dups (dedupeKey <$> filter has_text rawMatches).


Definition tied (v : float) (b : Boosted) : Prop := (_boostedScore b =? v)%float = true.

#[global] Instance tied_dec (v : float) (b : Boosted) : Decision (tied v b) :=
  bool_eq_dec _ _.


(** [p] stands in [sorted] before every other usable candidate of its key. *)
Definition first_usable_of_key (sorted : list Boosted) (p : Boosted) : Prop :=
  exists before after : list Boosted,
    sorted = before ++ p :: after
    /\ forall q : Boosted, q ∈ before -> dedupeKey q = dedupeKey p -> ~ has_text q.

(** [p] stands in [sorted] before every other candidate of its key. *)
Definition first_of_key (sorted : list Boosted) (p : Boosted) : Prop :=
  exists before after : list Boosted,
    sorted = before ++ p :: after
    /\ forall q : Boosted, q ∈ before -> dedupeKey q <> dedupeKey p.

(** The walk of [pick_loop] without its cap: the candidates it would accept. *)
Fixpoint select (boosted : list Boosted) (seen : gset jsstring) : list Boosted :=
  match boosted with
  | [] => []
  | m :: rest =>
      if bool_decide (dedupeKey m ∈ seen) then select rest seen
      else if negb (nonempty (usable_text m)) then select rest seen
      else m :: select rest ({[ dedupeKey m ]} ∪ seen)
  end.

(** Order by score, through the embedding of the scores into [Z]. *)
Definition key_descending (l : list Boosted) : Prop :=
  StronglySorted (fun a b => fkey (_boostedScore b) <= fkey (_boostedScore a)) l.

Definition scores_not_nan (l : list Boosted) : Prop :=
  Forall (fun b => not_nan (_boostedScore b)) l.

(** A metadata field that is present with a non-empty value. *)
Definition present (a : option jsstring) : option jsstring :=
  match a with
  | Some (c :: s) => Some (c :: s)
  | _ => None
  end.

(** The dedupe key by fallback priority: [(entity_type, entity_id)], then
    [name], then [section], then the raw id. *)
Definition key_by_priority (m : Match) : jsstring :=
  let md := metadata_of m in
  match present (md_entity_type md), present (md_entity_id md) with
  | Some type, Some id => type ++ lit ":" ++ id
  | _, _ =>
      match present (md_name md) with
      | Some name => lit "name:" ++ name
      | None =>
          match present (md_section md) with
          | Some section => lit "section:" ++ section
          | None => lit "id:" ++ default [] (present (m_id m))
          end
      end
  end.

(** ** Boost *)

(** The type the boost looks at: [entity_type], else [kind], in lower case. *)
Definition candidate_type (m : Match) : jsstring :=
  toLowerCase (str_or (md_entity_type (metadata_of m)) (str_or (md_kind (metadata_of m)) [])).

(** The boost table of the specification. *)
Definition boost_table (intent : Intent) (type : jsstring) : float :=
  match intent with
  | dorm => if decide (type = lit "dorm") then 0.08%float else 0%float
  | study_place => if decide (type = lit "study_place") then 0.08%float else 0%float
  | general =>
      if decide (type = lit "text" \/ type = lit "text_chunk") then 0.03%float else 0%float
  end.

(** ** Intent *)

(** [s] contains one of [words]. *)
Definition contains_one_of (words : list jsstring) (s : jsstring) : Prop :=
  exists w pre post : jsstring, w ∈ words /\ s = pre ++ w ++ post.

(** ** Surrogates *)

(** An element of [Array.from(s)] that is half a surrogate pair on its own. *)
Definition lone_surrogate (cp : jsstring) : bool :=
  match cp with
  | [c] => is_surrogate c
  | _ => false
  end.

(** What removing exactly the unpaired surrogates gives. *)
Definition strip_unpaired (s : jsstring) : jsstring :=
  concat (List.filter (fun cp => negb (lone_surrogate cp)) (Array_from s)).

(** ** Requests *)

(** [messages] when the body is an object carrying it as an array. *)
Definition messages_array (b : Value) : option (list Value) :=
  match b with
  | VObj fields =>
      match lookup_field (lit "messages") fields with
      | VArr l => Some l
      | _ => None
      end
  | _ => None
  end.

(** A turn of role [user] whose content is a string not empty after trimming. *)
Definition user_turn_with_content (v : Value) : Prop :=
  exists (fields : list (jsstring * Value)) (c : jsstring),
    v = VObj fields
    /\ lookup_field (lit "role") fields = VStr (lit "user")
    /\ lookup_field (lit "content") fields = VStr c
    /\ trim c <> [].

(** [messages] is missing, not an array or empty, or its last element is not
    a user turn with content. *)
Definition invalid_request (b : Value) : Prop :=
  match messages_array b with
  | None => True
  | Some l =>
      match last l with
      | None => True
      | Some m => ~ user_turn_with_content m
      end
  end.

(** ** Conversations *)

Record Turn : Type := mkTurn {
  t_role : jsstring;
  t_content : jsstring;
}.

Definition turn_value (t : Turn) : Value :=
  VObj [(lit "role", VStr (t_role t)); (lit "content", VStr (t_content t))].

(** The window of the conversation as the chat model receives it. *)
Definition history_of (turns : list Turn) : list ChatParam :=
  (fun t => {| cp_role := VStr (t_role t); cp_content := VStr (t_content t) |}) <$> turns.

(** The one request [rewriteToStandalone] sends the chat model for a
    conversation of turns. *)
Definition rewrite_request (turns : list Turn) : ChatRequest :=
  {| cr_model := lit "gpt-4o-mini";
     cr_temperature := 0;
     cr_messages :=
       [ {| cp_role := VStr (lit "system"); cp_content := VStr rewrite_system_prompt |} ]
       ++ history_of (slice_last 12 turns)
       ++ [ {| cp_role := VStr (lit "user");
               cp_content :=
                 VStr (lit "Rewrite my latest message into a standalone question.") |} ] |}.

(** The result of a chat call is empty or missing: it has no choice, its
    first choice has no message, the message has no content, or the content
    is empty once trimmed. *)
Definition empty_or_missing (resp : ChatCompletion) : Prop :=
  match cc_choices resp with
  | [] => True
  | choice :: _ =>
      match ch_message choice with
      | None => True
      | Some msg =>
          match cm_content msg with
          | None => True
          | Some content => trim content = []
          end
      end
  end.

(** ** Responses *)

(** A response without its diagnostic fields [rewrittenQuestion] and [intent]. *)
Definition without_diagnostics (r : Response)
  : Z * option jsstring * option jsstring * option (list MatchForClient) :=
  (status r, rb_error (body r), rb_answer (body r), rb_matches (body r)).

Definition degenerate_response (answer rewrittenQuestion : jsstring) : Response :=
  {| status := 200;
     body := {| rb_error := None;
                rb_answer := Some answer;
                rb_matches := Some [];
                rb_rewrittenQuestion := Some rewrittenQuestion;
                rb_intent := None |} |}.

(* ================================================================== *)
(** * Sample data *)

(** An entity of the knowledge base, as the ingestion stores it. *)
Definition entity (id type name text : string) (score : float) : Match :=
  {| m_id := Some (lit id);
     m_score := Some score;
     m_metadata :=
       Some {| md_entity_type := Some (lit type);
               md_kind := None;
               md_entity_id := None;
               md_name := Some (lit name);
               md_section := None;
               md_text := Some (lit text);
               md_text_preview := None;
               md_chunk_block := None;
               md_chunkBlock := None |} |}.

(** Ten usable candidates of ten names; two pairs tie once boosted. *)
Definition ten_candidates : list Match :=
  [ entity "v1" "dorm" "Olydorf" "Type: dorm. Rent: 350." 0.61;
    entity "v2" "study_place" "StuCafe" "Type: study place. Wifi: yes." 0.70;
    entity "v3" "dorm" "Studentenstadt" "Type: dorm. Rent: 330." 0.61;
    entity "v4" "text_chunk" "Anmeldung" "Register within two weeks." 0.55;
    entity "v5" "dorm" "Felsennelkenanger" "Type: dorm. Rent: 310." 0.58;
    entity "v6" "study_place" "Stabi" "Type: study place. Quiet: yes." 0.70;
    entity "v7" "dorm" "Stiftsbogen" "Type: dorm. Rent: 360." 0.52;
    entity "v8" "text_chunk" "Semesterticket" "Valid in the whole network." 0.50;
    entity "v9" "dorm" "Heiglhofstrasse" "Type: dorm. Rent: 340." 0.49;
    entity "v10" "dorm" "Agnes-Adelheid" "Type: dorm. Rent: 370." 0.47 ].

(** The first two of them, boosted for intent [dorm]. *)
Definition boosted_olydorf : Boosted :=
  {| b_match := entity "v1" "dorm" "Olydorf" "Type: dorm. Rent: 350." 0.61;
     _boostedScore := (0.61 + 0.08)%float |}.

Definition boosted_stucafe : Boosted :=
  {| b_match := entity "v2" "study_place" "StuCafe" "Type: study place. Wifi: yes." 0.70;
     _boostedScore := (0.70 + 0)%float |}.

(** Two records of one name: the better ranked one has only white space as
    its text. *)
Definition blank_then_text : list Match :=
  [ entity "a" "dorm" "Olydorf" "   " 0.9;
    entity "b" "dorm" "Olydorf" "Student village in the Olympic park." 0.5 ].

Definition cheap_dorms : jsstring := lit "cheap dorms".

(** [{ messages: [{ role: "user", content: "cheap dorms" }] }] *)
Definition sample_request : Value :=
  VObj [(lit "messages",
         VArr [VObj [(lit "role", VStr (lit "user"));
                     (lit "content", VStr cheap_dorms)]])].

(** [{ messages: [] }] *)
Definition empty_request : Value := VObj [(lit "messages", VArr [])].

(** Services whose chat model returns no choice and whose index returns
    [found]. *)
Definition silent_services (found : list Match) : Services :=
  {| chat_create := fun _ _ => inr {| cc_choices := [] |};
     embeddings_create := fun _ _ =>
       inr {| emb_data := [ {| ei_embedding := [0.25%float; 0.5%float] |} ] |};
     index_query := fun _ _ => inr (Some {| qr_matches := Some found |}) |}.

(** Services whose chat model returns no choice to a request at temperature
    0, as the rewrite is, and a text to any other request. *)
Definition picky_services : Services :=
  {| chat_create := fun _ r =>
       if (cr_temperature r =? 0)%float then inr {| cc_choices := [] |}
       else inr {| cc_choices :=
                     [ {| ch_message := Some {| cm_content := Some (lit "Sure.") |} |} ] |};
     embeddings_create := fun _ _ =>
       inr {| emb_data := [ {| ei_embedding := [0.25%float; 0.5%float] |} ] |};
     index_query := fun _ _ => inr (Some {| qr_matches := Some [] |}) |}.

(** A follow-up question after a first one. *)
Definition two_turns : list Turn :=
  [ {| t_role := lit "user"; t_content := lit "Suggest a dorm" |};
    {| t_role := lit "user"; t_content := lit "is it quiet?" |} ].

(** A record of the index without usable text. *)
Definition textless : Match := entity "t" "dorm" "Olydorf" "" 0.8.

(* ================================================================== *)
(** * Further sample data *)

(** Two usable records of one name. *)
Definition two_olydorf : list Match :=
  [ entity "a" "dorm" "Olydorf" "Student village." 0.5;
    entity "b" "dorm" "Olydorf" "Student village in the Olympic park." 0.9 ].

Definition boosted_a : Boosted :=
  {| b_match := entity "a" "dorm" "Olydorf" "Student village." 0.5;
     _boostedScore := (0.5 + 0.08)%float |}.

Definition boosted_b : Boosted :=
  {| b_match := entity "b" "dorm" "Olydorf" "Student village in the Olympic park." 0.9;
     _boostedScore := (0.9 + 0.08)%float |}.

(** The eighth of the ten candidates, left out by the cap under intent [dorm]. *)
Definition boosted_semesterticket : Boosted :=
  {| b_match := entity "v8" "text_chunk" "Semesterticket" "Valid in the whole network." 0.50;
     _boostedScore := (0.50 + 0)%float |}.

(* ================================================================== *)
(** * Further notions: the handler's calls and the services *)

(** [{ messages: turns }] as [req.json()] yields it. *)
Definition conversation_body (turns : list Turn) : Value :=
  VObj [(lit "messages", VArr (turn_value <$> turns))].

(** The function [rewriteToStandalone] maps over its window. *)
Definition read_turn (m : Value) : M ChatParam :=
  let* role := lift (get_prop m (lit "role")) in
  let* content := lift (get_prop m (lit "content")) in
  ret {| cp_role := role; cp_content := content |}.

Definition rewrite_instruction : ChatParam :=
  {| cp_role := VStr (lit "user");
     cp_content := VStr (lit "Rewrite my latest message into a standalone question.") |}.

(** The calls of one request, in pipeline order: the rewrite (temperature
    0), the embedding (512 dimensions, input without surrogates), the index
    query (18 candidates, with metadata), the synthesis (temperature 0.6);
    any prefix of these. *)
Definition pipeline_calls (calls : list Call) : Prop :=
  match calls with
  | [] => True
  | CallChat r1 :: after_rewrite =>
      cr_temperature r1 = 0%float
      /\ match after_rewrite with
         | [] => True
         | CallEmbed e :: after_embed =>
             er_dimensions e = 512
             /\ Forall (fun c => is_surrogate c = false) (er_input e)
             /\ match after_embed with
                | [] => True
                | CallQuery p :: after_query =>
                    qp_topK p = 18 /\ qp_includeMetadata p = true
                    /\ match after_query with
                       | [] => True
                       | [CallChat r2] => cr_temperature r2 = 0.6%float
                       | _ => False
                       end
                | _ => False
                end
         | _ => False
         end
  | _ => False
  end.

(** Services whose embedding model fails with [message]. *)
Definition embedding_down (message : jsstring) : Services :=
  {| chat_create := fun _ _ => inr {| cc_choices := [] |};
     embeddings_create := fun _ _ => inl (ErrorObj message);
     index_query := fun _ _ => inr (Some {| qr_matches := Some [] |}) |}.

(** A string that does not begin with white space. *)
Definition starts_clean (s : jsstring) : Prop :=
  match s with c :: _ => is_space c = false | [] => True end.

(** The message the [catch] block reports for a thrown value. *)
Definition catch_message (e : Thrown) : jsstring :=
  match e with
  | ErrorObj message => message
  | NonError => lit "Internal server error"
  end.

(** The service answers the call [c], made after the calls of [log], with a
    result the handler can use. *)
Definition call_answered (log : list Call) (c : Call) : Prop :=
  match c with
  | CallChat r => exists resp, chat_create services log r = inr resp
  | CallEmbed r =>
      exists item rest, embeddings_create services log r = inr {| emb_data := item :: rest |}
  | CallQuery p => exists res, index_query services log p = inr res
  end.

(** Every call of [calls], made one after the other after [log], is answered. *)
Fixpoint calls_answered (log : list Call) (calls : list Call) : Prop :=
  match calls with
  | [] => True
  | c :: later => call_answered log c /\ calls_answered (log ++ [c]) later
  end.

(** The services answer whatever they are asked. *)
Definition services_answer : Prop :=
  forall (log : list Call) (c : Call), call_answered log c.

(** The call [c], made after [log], fails, and [message] is what the
    [catch] block reports for it: the service throws and the message is that
    of the thrown value, or the embedding model answers without any
    embedding and the message is that of the [TypeError] of reading
    [emb.data[0].embedding]. *)
Definition call_fails (log : list Call) (c : Call) (message : jsstring) : Prop :=
  match c with
  | CallChat r =>
      exists e, chat_create services log r = inl e /\ message = catch_message e
  | CallEmbed r =>
      (exists e, embeddings_create services log r = inl e /\ message = catch_message e)
      \/ (exists emb,
            embeddings_create services log r = inr emb /\ emb_data emb = []
            /\ message = lit "Cannot read properties of undefined (reading 'embedding')")
  | CallQuery p =>
      exists e, index_query services log p = inl e /\ message = catch_message e
  end.

(** A [null] or [undefined] among the last 12 messages of the body. *)
Definition null_in_window (b : Value) : Prop :=
  exists messages x,
    messages_array b = Some messages
    /\ x ∈ slice_last 12 messages /\ is_nullish x = true.

(** The ways a request with a parsed body [b], received after the calls of
    [log], can end: the response, and the calls made for it. *)
Inductive Outcome (b : Value) (log : list Call) : Response -> list Call -> Prop :=
| rejected (message : jsstring) :
    invalid_request b ->
    Outcome b log (json_response (error_body message) 400) []
| failed_reading (message : jsstring) :
    ~ invalid_request b ->
    null_in_window b ->
    Outcome b log (json_response (error_body message) 500) []
| failed_calling (message : jsstring) (prior : list Call) (c : Call) :
    ~ invalid_request b ->
    ~ null_in_window b ->
    pipeline_calls (prior ++ [c]) ->
    calls_answered log prior ->
    call_fails (log ++ prior) c message ->
    Outcome b log (json_response (error_body message) 500) (prior ++ [c])
| no_candidates (q : jsstring) (calls : list Call) :
    ~ invalid_request b ->
    ~ null_in_window b ->
    q <> [] ->
    pipeline_calls calls -> length calls = 3%nat ->
    calls_answered log calls ->
    Outcome b log (degenerate_response no_candidates_answer q) calls
| no_usable (q : jsstring) (calls : list Call) :
    ~ invalid_request b ->
    ~ null_in_window b ->
    q <> [] ->
    pipeline_calls calls -> length calls = 3%nat ->
    calls_answered log calls ->
    Outcome b log (degenerate_response no_usable_answer q) calls
| answered (q answer : jsstring) (rawMatches : list Match) (calls : list Call) :
    ~ invalid_request b ->
    ~ null_in_window b ->
    q <> [] ->
    pipeline_calls calls -> length calls = 4%nat ->
    calls_answered log calls ->
    rankAndDedupe rawMatches (inferIntent (Some q)) <> [] ->
    trim answer = answer ->
    Outcome b log
      {| status := 200;
         body := {| rb_error := None;
                    rb_answer := Some answer;
                    rb_matches :=
                      Some (matchesToClient
                              (b_match <$> rankAndDedupe rawMatches (inferIntent (Some q)))
                              (inferIntent (Some q)));
                    rb_rewrittenQuestion := Some q;
                    rb_intent := Some (Intent_str (inferIntent (Some q))) |} |}
      calls.

(* ================================================================== *)
(** * page.tsx: the chat page *)

Inductive ApiRole : Type := role_user | role_assistant.

Definition ApiRole_str (r : ApiRole) : jsstring :=
  match r with
  | role_user => lit "user"
  | role_assistant => lit "assistant"
  end.

Record ApiMessage : Type := mkApiMessage {
  am_role : ApiRole;
  am_content : jsstring;
}.

Record Message : Type := mkMessage {
  msg_id : jsstring;
  msg_role : ApiRole;
  msg_content : jsstring;
  msg_matches : option (list MatchForClient);
}.

Definition MAX_MESSAGES_TO_SEND : nat := 12.

Inductive Icon : Type := PlaceIcon | HomeIcon | ArticleIcon.

Definition typeIcon (type : option jsstring) : Icon :=
  let t := toLowerCase (str_or type []) in
  if jsstring_eqb t (lit "study_place") then PlaceIcon
  else if jsstring_eqb t (lit "dorm") then HomeIcon
  else ArticleIcon.

Definition typeLabel (type : option jsstring) : jsstring :=
  let t := toLowerCase (str_or type []) in
  if jsstring_eqb t (lit "study_place") then lit "Study place"
  else if jsstring_eqb t (lit "dorm") then lit "Dorm"
  else if jsstring_eqb t (lit "text_chunk") || jsstring_eqb t (lit "text") then lit "Guide"
  else lit "Source".

(** The state of the page that [sendMessage] reads and sets. *)
Record PageState : Type := mkPageState {
  ps_input : jsstring;
  ps_messages : list Message;
  ps_loading : bool;
  ps_error : option jsstring;
}.

(** [{ role, content }] as [JSON.stringify] writes it and [req.json()] reads it. *)
Definition ApiMessage_json (m : ApiMessage) : Value :=
  VObj [(lit "role", VStr (ApiRole_str (am_role m))); (lit "content", VStr (am_content m))].

(** [nextMessages.filter(m => m.id !== 'welcome').slice(-MAX_MESSAGES_TO_SEND)
    .map(m => ({ role: m.role, content: m.content }))] *)
Definition payloadMessages (nextMessages : list Message) : list ApiMessage :=
  (fun m => {| am_role := msg_role m; am_content := msg_content m |})
  <$> slice_last MAX_MESSAGES_TO_SEND
        (filter (fun m => msg_id m <> lit "welcome") nextMessages).

(** [{ messages: payloadMessages }] *)
Definition request_body (payload : list ApiMessage) : Value :=
  VObj [(lit "messages", VArr (ApiMessage_json <$> payload))].

(** The message [sendMessage] adds for the question; [now] is [Date.now()]. *)
Definition userMsg (question : jsstring) (now : N) : Message :=
  {| msg_id := lit "user-" ++ lit (pretty now);
     msg_role := role_user;
     msg_content := question;
     msg_matches := None |}.

(** [res.ok] *)
Definition res_ok (res : Response) : bool :=
  ((200 <=? status res) && (status res <=? 299))%Z.

(** [sendMessage], with the endpoint as [fetch] (a thrown value when the
    request itself fails) and the two readings [now1], [now2] of the clock. *)
Definition sendMessage (fetch : Value -> Thrown + Response) (now1 now2 : N)
    (st : PageState) : PageState :=
  let question := trim (ps_input st) in
  if negb (nonempty question) || ps_loading st then st
  else
    let nextMessages := ps_messages st ++ [userMsg question now1] in
    match fetch (request_body (payloadMessages nextMessages)) with
    | inl err =>
        {| ps_input := [];
           ps_messages := nextMessages;
           ps_loading := false;
           ps_error := Some match err with
                            | ErrorObj message => message
                            | NonError => lit "Something went wrong"
                            end |}
    | inr res =>
        if negb (res_ok res) then
          {| ps_input := [];
             ps_messages := nextMessages;
             ps_loading := false;
             ps_error :=
               Some (str_or (rb_error (body res))
                       (lit "Request failed with " ++ lit (pretty (status res)))) |}
        else
          let assistantMsg :=
            {| msg_id := lit "assistant-" ++ lit (pretty now2);
               msg_role := role_assistant;
               msg_content := str_or (rb_answer (body res)) (lit "No answer returned.");
               msg_matches := Some (default [] (rb_matches (body res))) |} in
          {| ps_input := [];
             ps_messages := nextMessages ++ [assistantMsg];
             ps_loading := false;
             ps_error := None |}
    end.

(** The endpoint as the page reaches it: the handler run on the parsed
    body, after the calls of [log]. *)
Definition endpoint (log : list Call) (b : Value) : Thrown + Response :=
  fst (POST (inr b) log).

(** The page can send: the input has text and no request is under way. *)
Definition can_send (st : PageState) : Prop :=
  trim (ps_input st) <> [] /\ ps_loading st = false.

(** ** Sample requests and page *)

(** [{ messages: [null, { role: "user", content: "cheap dorms" }] }] *)
Definition null_then_user : Value :=
  VObj [(lit "messages",
         VArr [VNull;
               VObj [(lit "role", VStr (lit "user"));
                     (lit "content", VStr cheap_dorms)]])].

(** The page as it opens, with a question typed in. *)
Definition sample_page : PageState :=
  {| ps_input := lit "  cheap dorms ";
     ps_messages :=
       [ {| msg_id := lit "welcome";
            msg_role := role_assistant;
            msg_content := lit "Hi!";
            msg_matches := None |} ];
     ps_loading := false;
     ps_error := None |}.

(** The first of the ten candidates as the page receives it under intent
    [dorm]. *)
Definition olydorf_card : MatchForClient :=
  {| mc_score := 0.61;
     mc_boostedScore := (0.61 + 0.08)%float;
     mc_type := lit "dorm";
     mc_title := lit "Olydorf";
     mc_snippet := lit "Type: dorm. Rent: 350." |}.

(* ================================================================== *)
(** * Binary64 facts

    The comparator of the sort subtracts two scores and looks at the sign.
    The lemmas below show, from the specification of binary64 arithmetic,
    that for numbers other than NaN this sign is the order of the scores,
    and that the order is the order of [fkey]. *)

Lemma digits2_pos_bounds (m : positive) :
  2 ^ (Zpos (digits2_pos m) - 1) <= Zpos m < 2 ^ Zpos (digits2_pos m).
Proof.
  induction m as [m IH|m IH|]; cbn [digits2_pos].
  - rewrite Pos2Z.inj_succ. replace (Z.succ (Z.pos (digits2_pos m)) - 1) with (Z.succ (Z.pos (digits2_pos m) - 1)) by lia.
    rewrite !Z.pow_succ_r by lia. lia.
  - rewrite Pos2Z.inj_succ. replace (Z.succ (Z.pos (digits2_pos m)) - 1) with (Z.succ (Z.pos (digits2_pos m) - 1)) by lia.
    rewrite !Z.pow_succ_r by lia. lia.
  - cbn. lia.
Qed.

Lemma shr_1_m (mrs : shr_record) :
  0 <= shr_m mrs -> shr_m (shr_1 mrs) = shr_m mrs / 2.
Proof.
  destruct mrs as [m r s]; cbn [shr_m]. intros Hm.
  destruct m as [|p|p]; [reflexivity| |lia].
  destruct p as [p|p|]; cbn [shr_1 shr_m].
  - apply Z.div_unique with 1; lia.
  - apply Z.div_unique with 0; lia.
  - reflexivity.
Qed.

Lemma pow2_xO (p : positive) : 2 ^ Z.pos p~0 = 2 ^ Z.pos p * 2 ^ Z.pos p.
Proof. rewrite <- Z.pow_add_r by lia. f_equal. lia. Qed.

Lemma pow2_xI (p : positive) : 2 ^ Z.pos p~1 = 2 * (2 ^ Z.pos p * 2 ^ Z.pos p).
Proof.
  rewrite <- Z.pow_add_r, <- Z.pow_succ_r by lia. f_equal. lia.
Qed.

Lemma iter_shr_1_m (p : positive) : forall mrs : shr_record,
  0 <= shr_m mrs ->
  shr_m (SpecFloat.iter_pos shr_1 p mrs) = shr_m mrs / 2 ^ Zpos p.
Proof.
  induction p as [p IH|p IH|]; intros mrs Hm; cbn [SpecFloat.iter_pos].
  - assert (H1 : 0 <= shr_m (shr_1 mrs)) by (rewrite shr_1_m by lia; apply Z.div_pos; lia).
    assert (H2 : 0 <= shr_m (SpecFloat.iter_pos shr_1 p (shr_1 mrs))) by (rewrite IH by lia; apply Z.div_pos; lia).
    rewrite IH, IH, shr_1_m by lia.
    rewrite !Z.div_div by lia.
    f_equal. rewrite pow2_xI. lia.
  - assert (H2 : 0 <= shr_m (SpecFloat.iter_pos shr_1 p mrs)) by (rewrite IH by lia; apply Z.div_pos; lia).
    rewrite IH, IH by lia.
    rewrite !Z.div_div by lia.
    f_equal. rewrite pow2_xO. lia.
  - rewrite shr_1_m by lia. reflexivity.
Qed.

Lemma shr_record_of_loc_m m l : shr_m (shr_record_of_loc m l) = m.
Proof. destruct l as [|[]]; reflexivity. Qed.

Lemma shr_fexp_pos (m e : Z) (l : location) :
  0 < m -> emin <= e ->
  0 < shr_m (fst (shr_fexp prec emax m e l)) /\ emin <= snd (shr_fexp prec emax m e l).
Proof.
  intros Hm He. unfold shr_fexp, shr.
  destruct m as [|q|q]; try lia. cbn [Zdigits2].
  pose proof (digits2_pos_bounds q) as Hd.
  set (d := Z.pos (digits2_pos q)) in *.
  assert (Hfe : fexp prec emax (d + e) - e <= d - 1).
  { unfold fexp, SpecFloat.emin, prec, emax in *. lia. }
  destruct (fexp prec emax (d + e) - e) as [|p|p] eqn:Hn; cbn [fst snd];
    rewrite ?shr_record_of_loc_m; try (split; lia).
  rewrite iter_shr_1_m by (rewrite shr_record_of_loc_m; lia).
  rewrite shr_record_of_loc_m. split; [|lia].
  assert (2 ^ Z.pos p <= 2 ^ (d - 1)) by (apply Z.pow_le_mono_r; lia).
  apply Z.div_str_pos. lia.
Qed.

Lemma round_nearest_even_pos m l : 0 < m -> 0 < round_nearest_even m l.
Proof.
  intros Hm. destruct l as [|[]]; cbn [round_nearest_even]; try lia.
  destruct (Z.even m); lia.
Qed.

Lemma binary_round_aux_signed (s : bool) (m e : Z) (l : location) :
  0 < m -> emin <= e -> sf_signed s (binary_round_aux prec emax s m e l).
Proof.
  intros Hm He. unfold binary_round_aux.
  pose proof (shr_fexp_pos m e l Hm He) as [H1 H2].
  destruct (shr_fexp prec emax m e l) as [mrs' e']. cbn [fst snd] in *.
  pose proof (shr_fexp_pos _ e' loc_Exact
                (round_nearest_even_pos _ (loc_of_shr_record mrs') H1) H2) as [H3 _].
  destruct (shr_fexp prec emax _ e' loc_Exact) as [mrs'' e'']. cbn [fst] in H3.
  destruct (shr_m mrs'') as [|p|p]; try lia.
  destruct (e'' <=? emax - prec); reflexivity.
Qed.

Lemma shl_align_exp (mx : positive) (ex ex' : Z) :
  emin <= ex -> emin <= ex' -> emin <= snd (shl_align mx ex ex').
Proof.
  intros. unfold shl_align. destruct (ex' - ex); cbn [snd]; lia.
Qed.

Lemma binary_round_signed (s : bool) (m : positive) (e : Z) :
  emin <= e -> sf_signed s (binary_round prec emax s m e).
Proof.
  intros He. unfold binary_round.
  pose proof (shl_align_exp m e (fexp prec emax (Z.pos (digits2_pos m) + e)) He) as Hs.
  destruct (shl_align m e _) as [mz ez]. cbn [snd] in Hs.
  apply binary_round_aux_signed; [lia|].
  apply Hs. unfold fexp, SpecFloat.emin, prec, emax. lia.
Qed.

(** The sign of a rounded difference is the sign of the exact difference:
    gradual underflow keeps a non-zero difference away from zero. *)
Lemma binary_normalize_pos (m e : Z) :
  emin <= e ->
  SFltb (S754_zero false) (binary_normalize prec emax m e false) = (0 <? m).
Proof.
  intros He. destruct m as [|p|p]; cbn [binary_normalize]; [reflexivity| |].
  - pose proof (binary_round_signed false p e He) as Hs.
    destruct (binary_round prec emax false p e); cbn in Hs; try contradiction; subst; reflexivity.
  - pose proof (binary_round_signed true p e He) as Hs.
    destruct (binary_round prec emax true p e); cbn in Hs; try contradiction; subst; reflexivity.
Qed.

Lemma shl_align_val (m : positive) (e ez : Z) :
  ez <= e -> Z.pos (fst (shl_align m e ez)) = Z.pos m * 2 ^ (e - ez).
Proof.
  intros Hle. unfold shl_align.
  destruct (ez - e) as [|d|d] eqn:Hd; cbn [fst]; try lia.
  - replace (e - ez) with 0 by lia. lia.
  - change (Pos.iter xO m d) with (shift_pos d m).
    rewrite shift_pos_correct, Z.pow_pos_fold.
    replace (e - ez) with (Z.pos d) by lia. lia.
Qed.

Lemma bounded_facts (m : positive) (e : Z) :
  bounded prec emax m e = true ->
  Z.pos m < 2 ^ 53 /\ emin <= e /\ (emin < e -> 2 ^ 52 <= Z.pos m).
Proof.
  unfold bounded, canonical_mantissa. intros Hb.
  apply andb_prop in Hb as [Hc _]. apply Z.eqb_eq in Hc.
  pose proof (digits2_pos_bounds m) as Hd.
  set (d := Z.pos (digits2_pos m)) in *.
  unfold fexp, SpecFloat.emin, prec, emax in *.
  assert (Hd53 : d <= 53) by lia.
  split; [|split; [lia|]].
  - assert (2 ^ d <= 2 ^ 53) by (apply Z.pow_le_mono_r; lia). lia.
  - intros He. assert (d = 53) as Heq by lia. rewrite Heq in Hd.
    change (53 - 1) with 52 in Hd. lia.
Qed.

Lemma canonical_lt (m1 m2 : positive) (e1 e2 : Z) :
  bounded prec emax m1 e1 = true -> bounded prec emax m2 e2 = true ->
  e1 < e2 -> Z.pos m1 < Z.pos m2 * 2 ^ (e2 - e1).
Proof.
  intros H1 H2 Hlt.
  apply bounded_facts in H1 as (Hm1 & He1 & _).
  apply bounded_facts in H2 as (_ & _ & Hm2).
  specialize (Hm2 ltac:(lia)).
  assert (2 ^ 1 <= 2 ^ (e2 - e1)) by (apply Z.pow_le_mono_r; lia).
  change (2 ^ 1) with 2 in *.
  change (2 ^ 53) with (2 ^ 52 * 2) in Hm1.
  nia.
Qed.

Lemma SFcompare_finite_exact (s1 s2 : bool) (m1 m2 : positive) (e1 e2 : Z) :
  bounded prec emax m1 e1 = true -> bounded prec emax m2 e2 = true ->
  SFcompare (S754_finite s1 m1 e1) (S754_finite s2 m2 e2)
  = Some (sf_scaled s1 m1 e1 (Z.min e1 e2) ?= sf_scaled s2 m2 e2 (Z.min e1 e2)).
Proof.
  intros H1 H2. unfold sf_scaled.
  rewrite !shl_align_val by lia.
  cbn [SFcompare]. f_equal.
  assert (Hp : forall x, 0 < 2 ^ x \/ 2 ^ x = 0).
  { intros x. destruct (Z.le_gt_cases 0 x).
    - left. apply Z.pow_pos_nonneg; lia.
    - right. apply Z.pow_neg_r. lia. }
  destruct (Z.compare_spec e1 e2) as [Heq|Hlt|Hgt].
  - subst e2. rewrite Z.min_id, Z.sub_diag, !Z.mul_1_r.
    destruct s1, s2; reflexivity.
  - pose proof (canonical_lt _ _ _ _ H1 H2 Hlt) as Hc.
    rewrite Z.min_l, Z.sub_diag, Z.mul_1_r by lia.
    assert (0 < 2 ^ (e2 - e1)) by (apply Z.pow_pos_nonneg; lia).
    destruct s1, s2; cbn [cond_Zopp]; symmetry;
      first [apply Z.compare_lt_iff | apply Z.compare_gt_iff]; nia.
  - pose proof (canonical_lt _ _ _ _ H2 H1 Hgt) as Hc.
    rewrite Z.min_r, Z.sub_diag, Z.mul_1_r by lia.
    assert (0 < 2 ^ (e1 - e2)) by (apply Z.pow_pos_nonneg; lia).
    destruct s1, s2; cbn [cond_Zopp]; symmetry;
      first [apply Z.compare_lt_iff | apply Z.compare_gt_iff]; nia.
Qed.

Lemma SFsub_pos (x y : spec_float) :
  sf_valid x -> sf_valid y -> sf_not_nan x -> sf_not_nan y ->
  SFltb (S754_zero false) (SFsub prec emax y x) = SFltb x y.
Proof.
  intros Vx Vy Nx Ny.
  destruct x as [sx|sx| |sx mx ex], y as [sy|sy| |sy my ey];
    try contradiction; try (destruct sx, sy; reflexivity);
    try (destruct sx; reflexivity); try (destruct sy; reflexivity).
  unfold sf_valid in Vx, Vy. cbn [SpecFloat.valid_binary] in Vx, Vy.
  pose proof (bounded_facts _ _ Vx) as (_ & Hex & _).
  pose proof (bounded_facts _ _ Vy) as (_ & Hey & _).
  cbn [SFsub]. rewrite binary_normalize_pos by lia.
  unfold SFltb. rewrite SFcompare_finite_exact by assumption.
  unfold sf_scaled. rewrite (Z.min_comm ex ey).
  set (a := cond_Zopp sx _). set (b := cond_Zopp sy _).
  destruct (Z.compare_spec a b), (Z.ltb_spec 0 (b - a)); try reflexivity; lia.
Qed.

Lemma SFcompare_key (x y : spec_float) :
  sf_valid x -> sf_valid y -> sf_not_nan x -> sf_not_nan y ->
  SFcompare x y = Some (sf_key x ?= sf_key y).
Proof.
  intros Vx Vy Nx Ny.
  assert (Hfin : forall m e, bounded prec emax m e = true ->
            0 < (e - emin + 1) * 2 ^ 53 + Z.pos m < 2 ^ 53 * 4096).
  { intros m e Hb. pose proof (bounded_facts _ _ Hb) as (Hm & He & _).
    unfold bounded in Hb. apply andb_prop in Hb as [_ Hmax]. apply Z.leb_le in Hmax.
    unfold SpecFloat.emin, prec, emax in *. lia. }
  destruct x as [sx|sx| |sx mx ex], y as [sy|sy| |sy my ey];
    try contradiction; unfold sf_valid in *; cbn [SpecFloat.valid_binary] in *;
    cbn [SFcompare sf_key]; f_equal; symmetry.
  - destruct sy; reflexivity.
  - pose proof (Hfin _ _ Vy).
    destruct sy; cbn [cond_Zopp]; [apply Z.compare_gt_iff|apply Z.compare_lt_iff]; lia.
  - destruct sx; reflexivity.
  - destruct sx, sy; reflexivity.
  - pose proof (Hfin _ _ Vy).
    destruct sx; cbn [cond_Zopp]; [apply Z.compare_lt_iff|apply Z.compare_gt_iff];
      destruct sy; cbn [cond_Zopp]; lia.
  - pose proof (Hfin _ _ Vx).
    destruct sx; cbn [cond_Zopp]; [apply Z.compare_lt_iff|apply Z.compare_gt_iff]; lia.
  - pose proof (Hfin _ _ Vx).
    destruct sy; cbn [cond_Zopp]; [apply Z.compare_gt_iff|apply Z.compare_lt_iff];
      destruct sx; cbn [cond_Zopp]; lia.
  - pose proof (Hfin _ _ Vx) as Hx. pose proof (Hfin _ _ Vy) as Hy.
    pose proof (bounded_facts _ _ Vx) as (Hmx & Hex & _).
    pose proof (bounded_facts _ _ Vy) as (Hmy & Hey & _).
    destruct sx, sy; cbn [cond_Zopp].
    + destruct (Z.compare_spec ex ey) as [->|Hl|Hg].
      * rewrite Pos.compare_cont_spec. cbn [Pos.switch_Eq].
        destruct (Pos.compare_spec mx my) as [->|Hl|Hg]; cbn [CompOpp].
        -- apply Z.compare_eq_iff. lia.
        -- apply Z.compare_gt_iff. lia.
        -- apply Z.compare_lt_iff. lia.
      * apply Z.compare_gt_iff. nia.
      * apply Z.compare_lt_iff. nia.
    + apply Z.compare_lt_iff. lia.
    + apply Z.compare_gt_iff. lia.
    + destruct (Z.compare_spec ex ey) as [->|Hl|Hg].
      * rewrite Pos.compare_cont_spec. cbn [Pos.switch_Eq].
        destruct (Pos.compare_spec mx my) as [->|Hl|Hg]; cbn [CompOpp].
        -- apply Z.compare_eq_iff. lia.
        -- apply Z.compare_lt_iff. lia.
        -- apply Z.compare_gt_iff. lia.
      * apply Z.compare_lt_iff. nia.
      * apply Z.compare_gt_iff. nia.
Qed.

Lemma Prim2SF_not_nan (f : float) : is_nan f = false -> sf_not_nan (Prim2SF f).
Proof.
  intros H. unfold Prim2SF. rewrite H.
  destruct (is_zero f); [exact I|]. destruct (is_infinity f); [exact I|].
  destruct (Z.frexp f) as [r ex]. destruct (shr_fexp _ _ _ _ _) as [mrs e'].
  destruct (shr_m mrs); exact I.
Qed.

Lemma SFcompare_refl (x : spec_float) :
  sf_valid x -> sf_not_nan x -> SFcompare x x = Some Eq.
Proof.
  intros V N. rewrite SFcompare_key by assumption. now rewrite Z.compare_refl.
Qed.

Lemma not_nan_Prim2SF (f : float) : sf_not_nan (Prim2SF f) -> is_nan f = false.
Proof.
  intros H. unfold is_nan. rewrite FloatAxioms.eqb_spec. unfold SFeqb.
  rewrite SFcompare_refl; [reflexivity|apply Prim2SF_valid|assumption].
Qed.

Lemma ltb_fkey (a b : float) :
  is_nan a = false -> is_nan b = false -> (a <? b)%float = (fkey a <? fkey b).
Proof.
  intros Ha Hb. rewrite FloatAxioms.ltb_spec. unfold SFltb, fkey.
  rewrite SFcompare_key by (try apply Prim2SF_valid; now apply Prim2SF_not_nan).
  unfold Z.ltb. now destruct (_ ?= _).
Qed.

Lemma leb_fkey (a b : float) :
  is_nan a = false -> is_nan b = false -> (a <=? b)%float = (fkey a <=? fkey b).
Proof.
  intros Ha Hb. rewrite FloatAxioms.leb_spec. unfold SFleb, fkey.
  rewrite SFcompare_key by (try apply Prim2SF_valid; now apply Prim2SF_not_nan).
  unfold Z.leb. now destruct (_ ?= _).
Qed.


(** The comparator [b - a] of the sort is positive exactly when [a < b]. *)
Lemma sub_pos_fkey (a b : float) :
  is_nan a = false -> is_nan b = false ->
  (0 <? b - a)%float = (fkey a <? fkey b).
Proof.
  intros Ha Hb. rewrite <- ltb_fkey by assumption.
  rewrite !FloatAxioms.ltb_spec, FloatAxioms.sub_spec.
  change (Prim2SF 0) with (S754_zero false).
  apply SFsub_pos; try apply Prim2SF_valid; now apply Prim2SF_not_nan.
Qed.

Lemma binary_normalize_not_nan (m e : Z) :
  emin <= e -> sf_not_nan (binary_normalize prec emax m e false).
Proof.
  intros He. destruct m as [|p|p]; cbn [binary_normalize]; [exact I| |].
  - pose proof (binary_round_signed false p e He) as Hs.
    destruct (binary_round prec emax false p e); cbn in Hs; try contradiction; exact I.
  - pose proof (binary_round_signed true p e He) as Hs.
    destruct (binary_round prec emax true p e); cbn in Hs; try contradiction; exact I.
Qed.

Lemma SFadd_not_nan (x y : spec_float) :
  sf_valid x -> sf_valid y -> sf_not_nan x -> sf_finite y ->
  sf_not_nan (SFadd prec emax x y).
Proof.
  intros Vx Vy Nx Fy.
  destruct x as [sx|sx| |sx mx ex], y as [sy|sy| |sy my ey];
    try contradiction; try exact I; try (destruct sx, sy; exact I).
  unfold sf_valid in Vx, Vy. cbn [SpecFloat.valid_binary] in Vx, Vy.
  pose proof (bounded_facts _ _ Vx) as (_ & Hex & _).
  pose proof (bounded_facts _ _ Vy) as (_ & Hey & _).
  cbn [SFadd]. apply binary_normalize_not_nan. lia.
Qed.

Lemma add_not_nan (a c : float) :
  is_nan a = false -> sf_finite (Prim2SF c) -> is_nan (a + c) = false.
Proof.
  intros Ha Hc. apply not_nan_Prim2SF. rewrite FloatAxioms.add_spec.
  apply SFadd_not_nan; try apply Prim2SF_valid; [now apply Prim2SF_not_nan|assumption].
Qed.

(** Adding [+0] leaves a number numerically unchanged. *)
Lemma add_zero_eqb (a : float) : is_nan a = false -> (a + 0 =? a)%float = true.
Proof.
  intros Ha. rewrite FloatAxioms.eqb_spec, FloatAxioms.add_spec.
  change (Prim2SF 0) with (S754_zero false).
  pose proof (Prim2SF_valid a) as V. pose proof (Prim2SF_not_nan a Ha) as N.
  destruct (Prim2SF a) as [s|s| |s m e] eqn:E; try contradiction.
  - destruct s; reflexivity.
  - destruct s; reflexivity.
  - unfold SF64add. cbn [SFadd]. unfold SFeqb.
    rewrite SFcompare_refl; [reflexivity|exact V|exact I].
Qed.


(* ================================================================== *)
(** * The sort *)

Lemma sort_insert_perm {A : Type} (f : A -> A -> float) (x : A) (l : list A) :
  sort_insert f x l ≡ₚ x :: l.
Proof.
  induction l as [|y l IH]; cbn [sort_insert]; [reflexivity|].
  destruct (0 <? f x y)%float; [|reflexivity].
  rewrite IH. apply Permutation_swap.
Qed.

Lemma Array_sort_perm {A : Type} (f : A -> A -> float) (l : list A) :
  Array_sort f l ≡ₚ l.
Proof.
  induction l as [|x l IH]; [reflexivity|].
  unfold Array_sort in *. cbn [foldr]. rewrite sort_insert_perm. now rewrite IH.
Qed.

Lemma compareFn_positive (x y : Boosted) :
  not_nan (_boostedScore x) -> not_nan (_boostedScore y) ->
  (0 <? compareFn x y)%float = (fkey (_boostedScore x) <? fkey (_boostedScore y)).
Proof. intros Hx Hy. unfold compareFn. now apply sub_pos_fkey. Qed.

Lemma sort_insert_descending (x : Boosted) (l : list Boosted) :
  not_nan (_boostedScore x) -> scores_not_nan l ->
  key_descending l -> key_descending (sort_insert compareFn x l).
Proof.
  intros Hx Hl Hs. induction Hs as [|y l Hs IH Hy]; cbn [sort_insert].
  - repeat constructor.
  - apply Forall_cons in Hl as [Hyn Hl].
    rewrite compareFn_positive by assumption.
    destruct (Z.ltb_spec (fkey (_boostedScore x)) (fkey (_boostedScore y))) as [Hlt|Hge].
    + constructor; [now apply IH|].
      rewrite sort_insert_perm. constructor; [lia|assumption].
    + constructor; [now constructor|].
      constructor; [lia|].
      eapply Forall_impl; [exact Hy|]. cbn. intros z Hz. lia.
Qed.

Lemma Array_sort_descending (l : list Boosted) :
  scores_not_nan l -> key_descending (Array_sort compareFn l).
Proof.
  induction l as [|x l IH]; intros Hl.
  - constructor.
  - apply Forall_cons in Hl as [Hx Hl]. unfold Array_sort in *. cbn [foldr].
    apply sort_insert_descending; [assumption| |now apply IH].
    unfold scores_not_nan. fold (Array_sort compareFn l).
    now rewrite Array_sort_perm.
Qed.





Lemma StronglySorted_sublist {A : Type} (R : A -> A -> Prop) (l k : list A) :
  l `sublist_of` k -> StronglySorted R k -> StronglySorted R l.
Proof.
  intros Hsub Hk. revert l Hsub.
  induction Hk as [|x k Hk IH Hx]; intros l Hsub.
  - apply sublist_nil_r in Hsub as ->. constructor.
  - apply sublist_cons_r in Hsub as [Hsub|(l' & -> & Hsub)]; [now apply IH|].
    constructor; [now apply IH|].
    rewrite Forall_forall in Hx |- *. intros y Hy.
    apply Hx. eapply elem_of_sublist; [exact Hy|exact Hsub].
Qed.

(* ================================================================== *)
(** * The selection walk *)

Lemma pick_loop_select (l picked : list Boosted) (seen : gset jsstring) :
  pick_loop l picked seen = picked ++ take (8 - length picked) (select l seen).
Proof.
  revert picked seen. induction l as [|m rest IH]; intros picked seen; cbn [pick_loop select].
  - now rewrite take_nil, app_nil_r.
  - destruct (Nat.leb_spec 8 (length picked)) as [Hfull|Hroom].
    + replace (8 - length picked)%nat with 0%nat by lia. now rewrite take_0, app_nil_r.
    + destruct (bool_decide (dedupeKey m ∈ seen)); [apply IH|].
      destruct (negb (nonempty (usable_text m))); [apply IH|].
      rewrite IH, length_app. cbn [length].
      replace (8 - length picked)%nat with (S (8 - (length picked + 1))) by lia.
      cbn [take]. now rewrite <- app_assoc.
Qed.

Lemma rankAndDedupe_select (rawMatches : list Match) (intent : Intent) :
  rankAndDedupe rawMatches intent
  = take 8 (select (Array_sort compareFn (boost_all rawMatches intent)) ∅).
Proof. unfold rankAndDedupe. now rewrite pick_loop_select. Qed.

Lemma select_sublist (l : list Boosted) (seen : gset jsstring) :
  select l seen `sublist_of` l.
Proof.
  revert seen. induction l as [|m rest IH]; intros seen; cbn [select]; [constructor|].
  destruct (bool_decide _); [now apply sublist_cons|].
  destruct (negb _); [now apply sublist_cons|].
  now apply sublist_skip.
Qed.

Lemma rankAndDedupe_sublist (rawMatches : list Match) (intent : Intent) :
  rankAndDedupe rawMatches intent
  `sublist_of` Array_sort compareFn (boost_all rawMatches intent).
Proof.
  rewrite rankAndDedupe_select. etransitivity; [apply sublist_take|apply select_sublist].
Qed.

(** What the walk accepts: the first usable candidate of every key not seen. *)
Lemma select_spec (l : list Boosted) (seen : gset jsstring) (p : Boosted) :
  p ∈ select l seen ->
  first_usable_of_key l p /\ has_text p /\ dedupeKey p ∉ seen.
Proof.
  revert seen. induction l as [|m rest IH]; intros seen; cbn [select].
  - intros H. inversion H.
  - destruct (bool_decide_reflect (dedupeKey m ∈ seen)) as [Hin|Hnotin].
    { intros Hp. destruct (IH _ Hp) as ((before & after & -> & Hb) & Ht & Hk).
      split; [|done]. exists (m :: before), after. split; [done|].
      intros q Hq Heq. apply elem_of_cons in Hq as [->|Hq]; [|now apply Hb].
      rewrite Heq in Hin. done. }
    destruct (nonempty (usable_text m)) eqn:Htext; cbn [negb].
    + intros Hp. apply elem_of_cons in Hp as [->|Hp].
      * split; [|done]. exists [], rest. split; [done|]. intros q Hq. inversion Hq.
      * destruct (IH _ Hp) as ((before & after & -> & Hb) & Ht & Hk).
        split; [|split; [done|set_solver]].
        exists (m :: before), after. split; [done|].
        intros q Hq Heq. apply elem_of_cons in Hq as [->|Hq]; [|now apply Hb].
        set_solver.
    + intros Hp. destruct (IH _ Hp) as ((before & after & -> & Hb) & Ht & Hk).
      split; [|done]. exists (m :: before), after. split; [done|].
      intros q Hq Heq. apply elem_of_cons in Hq as [->|Hq]; [|now apply Hb].
      unfold has_text. rewrite Htext. discriminate.
Qed.

Lemma select_keys_NoDup (l : list Boosted) (seen : gset jsstring) :
  NoDup (dedupeKey <$> (b_match <$> select l seen)).
Proof.
  revert seen. induction l as [|m rest IH]; intros seen; cbn [select]; [constructor|].
  destruct (bool_decide _); [apply IH|].
  destruct (negb _); [apply IH|].
  rewrite !fmap_cons. constructor; [|apply IH].
  intros Hin. apply list_elem_of_fmap in Hin as (m' & Hk & Hin).
  apply list_elem_of_fmap in Hin as (p & -> & Hin).
  apply select_spec in Hin as (_ & _ & Hns). set_solver.
Qed.

Lemma select_keys (l : list Boosted) (seen : gset jsstring) :
  list_to_set (dedupeKey <$> (b_match <$> select l seen))
  = (list_to_set (dedupeKey <$> filter has_text (b_match <$> l)) : gset jsstring) ∖ seen.
Proof.
  revert seen. induction l as [|m rest IH]; intros seen; cbn [select].
  - cbn. set_solver.
  - rewrite fmap_cons, filter_cons.
    destruct (bool_decide_reflect (dedupeKey m ∈ seen)) as [Hin|Hnotin].
    { rewrite IH. destruct (decide (has_text m)); [|done].
      rewrite fmap_cons, list_to_set_cons. set_solver. }
    destruct (decide (has_text m)) as [Ht|Ht]; unfold has_text in Ht.
    + rewrite Ht. cbn [negb]. rewrite !fmap_cons, !list_to_set_cons, IH.
      apply set_eq. intros k. destruct (decide (k = dedupeKey m)); set_solver.
    + apply not_true_is_false in Ht. rewrite Ht. cbn [negb]. apply IH.
Qed.

(* ================================================================== *)
(** * Ranking: cap, order, ties *)


Lemma b_match_boost_all (rawMatches : list Match) (intent : Intent) :
  b_match <$> boost_all rawMatches intent = rawMatches.
Proof.
  unfold boost_all. rewrite <- list_fmap_compose.
  induction rawMatches as [|m l IH]; [reflexivity|]. rewrite fmap_cons, IH. reflexivity.
Qed.

Lemma scoreBoost_finite (m : Match) (intent : Intent) :
  sf_finite (Prim2SF (scoreBoost m intent)).
Proof.
  unfold scoreBoost.
  repeat match goal with |- context [if ?b then _ else _] => destruct b end;
    vm_compute; exact I.
Qed.

Lemma boost_all_not_nan (rawMatches : list Match) (intent : Intent) :
  Forall (fun m => not_nan (score_of m)) rawMatches ->
  scores_not_nan (boost_all rawMatches intent).
Proof.
  intros H. unfold scores_not_nan, boost_all. rewrite Forall_fmap.
  eapply Forall_impl; [exact H|]. intros m Hm. cbn.
  apply add_not_nan; [exact Hm|apply scoreBoost_finite].
Qed.

Lemma select_length (l : list Boosted) :
  length (select l ∅)
  = length (remove_dups (dedupeKey <$> filter has_text (b_match <$> l))).
Proof.
  rewrite <- (length_fmap b_match), <- (length_fmap dedupeKey).
  rewrite <- (size_list_to_set (C := gset jsstring)) by apply select_keys_NoDup.
  rewrite <- (size_list_to_set (C := gset jsstring) (remove_dups _)) by apply NoDup_remove_dups.
  f_equal. rewrite select_keys. apply set_eq. intros k.
  rewrite elem_of_difference, !elem_of_list_to_set, elem_of_remove_dups. set_solver.
Qed.

Lemma eligible_keys_sorted (rawMatches : list Match) (intent : Intent) :
  length (select (Array_sort compareFn (boost_all rawMatches intent)) ∅)
  = length (eligible_keys rawMatches).
Proof.
  rewrite select_length. unfold eligible_keys.
  rewrite <- !(size_list_to_set (C := gset jsstring)) by apply NoDup_remove_dups.
  f_equal. apply set_eq. intros k. rewrite !elem_of_list_to_set, !elem_of_remove_dups.
  rewrite (Array_sort_perm compareFn), b_match_boost_all. reflexivity.
Qed.


(* ================================================================== *)
(** * The selection walk: skip, accept, dedupe *)

Lemma pick_loop_step (m : Boosted) (rest picked : list Boosted) (seen : gset jsstring) :
  (length picked < 8)%nat ->
  pick_loop (m :: rest) picked seen
  = if decide (dedupeKey m ∈ seen \/ ~ has_text m)
    then pick_loop rest picked seen
    else pick_loop rest (picked ++ [m]) ({[ dedupeKey m ]} ∪ seen).
Proof.
  intros Hroom. cbn [pick_loop].
  destruct (Nat.leb_spec 8 (length picked)) as [Hfull|_]; [lia|].
  destruct (bool_decide_reflect (dedupeKey m ∈ seen)) as [Hin|Hnotin].
  { rewrite decide_True by now left. reflexivity. }
  destruct (decide (has_text m)) as [Ht|Ht].
  - rewrite decide_False by (intros [?|?]; done).
    unfold has_text in Ht. now rewrite Ht.
  - rewrite decide_True by now right.
    unfold has_text in Ht. apply not_true_is_false in Ht. now rewrite Ht.
Qed.

Lemma dedupeKey_priority (m : Match) : dedupeKey m = key_by_priority m.
Proof.
  unfold dedupeKey, key_by_priority.
  destruct (md_entity_type (metadata_of m)) as [[|? ?]|],
           (md_entity_id (metadata_of m)) as [[|? ?]|],
           (md_name (metadata_of m)) as [[|? ?]|],
           (md_section (metadata_of m)) as [[|? ?]|],
           (m_id m) as [[|? ?]|]; reflexivity.
Qed.

(** C2 (amended). A candidate the walk visits is skipped exactly when its
    dedupe key was recorded by an accepted candidate or its metadata text is
    empty after trimming, and is accepted otherwise; the dedupe key follows
    the fallback priority; the selected candidates have distinct keys, each
    is the first usable candidate of its key in sorted order, and none has
    empty or all-whitespace text. *)
Theorem selection_walk (rawMatches : list Match) (intent : Intent) :
  (forall (m : Boosted) (rest picked : list Boosted) (seen : gset jsstring),
      (length picked < 8)%nat ->
      pick_loop (m :: rest) picked seen
      = if decide (dedupeKey m ∈ seen \/ ~ has_text m)
        then pick_loop rest picked seen
        else pick_loop rest (picked ++ [m]) ({[ dedupeKey m ]} ∪ seen))
  /\ (forall m : Match, dedupeKey m = key_by_priority m)
  /\ NoDup (dedupeKey <$> (b_match <$> rankAndDedupe rawMatches intent))
  /\ (forall p : Boosted,
        p ∈ rankAndDedupe rawMatches intent ->
        first_usable_of_key (Array_sort compareFn (boost_all rawMatches intent)) p
        /\ has_text p).
Proof.
  split; [exact pick_loop_step|]. split; [exact dedupeKey_priority|]. split.
  - rewrite rankAndDedupe_select.
    eapply sublist_NoDup; [apply select_keys_NoDup|].
    do 2 apply fmap_sublist. apply sublist_take.
  - intros p Hp. rewrite rankAndDedupe_select in Hp.
    apply elem_of_take in Hp as (i & Hp & _). apply list_elem_of_lookup_2 in Hp.
    apply select_spec in Hp as (Hfirst & Htext & _). done.
Qed.

(* ================================================================== *)
(** * Boost and projected scores *)

Lemma jsstring_eqb_eq (a b : jsstring) : jsstring_eqb a b = true <-> a = b.
Proof. unfold jsstring_eqb. apply bool_decide_eq_true. Qed.

Lemma scoreBoost_table (m : Match) (intent : Intent) :
  scoreBoost m intent = boost_table intent (candidate_type m).
Proof.
  unfold scoreBoost, boost_table. fold (candidate_type m).
  unfold jsstring_eqb. destruct intent; cbn [Intent_eqb andb];
    repeat case_bool_decide; repeat case_decide; try reflexivity; tauto.
Qed.

Lemma boost_all_score (rawMatches : list Match) (intent : Intent) (b : Boosted) :
  b ∈ boost_all rawMatches intent ->
  _boostedScore b = (score_of b + scoreBoost b intent)%float.
Proof.
  unfold boost_all. intros Hb. apply list_elem_of_fmap in Hb as (m & -> & _). reflexivity.
Qed.

(** C3. The boosted score of a candidate is its score plus the boost of the
    table: 0.08 for a dorm under intent dorm and for a study place under
    intent study_place, 0.03 for a text chunk under intent general, 0
    otherwise. Under intent dorm a candidate of another type keeps its score
    (as a number: adding 0 turns -0 into +0). *)
Theorem boostedScore_table (rawMatches : list Match) (intent : Intent) (b : Boosted) :
  b ∈ boost_all rawMatches intent ->
  _boostedScore b = (score_of b + boost_table intent (candidate_type b))%float
  /\ (intent = dorm -> candidate_type b = lit "dorm" ->
      _boostedScore b = (score_of b + 0.08)%float)
  /\ (intent = dorm -> candidate_type b <> lit "dorm" ->
      _boostedScore b = (score_of b + 0)%float
      /\ (not_nan (score_of b) -> (_boostedScore b =? score_of b)%float = true)).
Proof.
  intros Hb. apply boost_all_score in Hb. rewrite scoreBoost_table in Hb.
  split; [exact Hb|]. split.
  - intros -> Ht. rewrite Hb. unfold boost_table. now rewrite decide_True.
  - intros -> Ht. rewrite Hb. unfold boost_table. rewrite decide_False by assumption.
    split; [reflexivity|]. apply add_zero_eqb.
Qed.

(** C10. The boosted score the response shows for a selected candidate is
    the score the candidate was ranked by, and the score shown is the score
    of the candidate (0 when missing). *)
Theorem projected_score_is_ranking_score (rawMatches : list Match) (intent : Intent) :
  mc_boostedScore <$> matchesToClient (b_match <$> rankAndDedupe rawMatches intent) intent
  = _boostedScore <$> rankAndDedupe rawMatches intent
  /\ mc_score <$> matchesToClient (b_match <$> rankAndDedupe rawMatches intent) intent
     = score_of <$> (b_match <$> rankAndDedupe rawMatches intent).
Proof.
  assert (Hall : Forall (fun b : Boosted =>
                   _boostedScore b = (score_of b + scoreBoost b intent)%float)
                 (rankAndDedupe rawMatches intent)).
  { rewrite Forall_forall. intros b Hb. apply (boost_all_score rawMatches).
    rewrite <- (Array_sort_perm compareFn).
    eapply elem_of_sublist; [exact Hb|apply rankAndDedupe_sublist]. }
  unfold matchesToClient.
  induction Hall as [|b l Hb Hl [IH1 IH2]]; [split; reflexivity|].
  rewrite !fmap_cons. cbn [mc_boostedScore mc_score]. rewrite IH1, IH2, Hb. done.
Qed.

(* ================================================================== *)
(** * Intent *)

Lemma starts_with_spec (w s : jsstring) :
  starts_with w s = true <-> exists post, s = w ++ post.
Proof.
  revert s. induction w as [|a w IH]; intros s; cbn [starts_with].
  - split; [intros _; now exists s|done].
  - destruct s as [|b s].
    + split; [done|]. intros (post & H). discriminate.
    + rewrite andb_true_iff, N.eqb_eq, IH. split.
      * intros (-> & post & ->). now exists post.
      * intros (post & H). injection H as -> ->. split; [done|]. now exists post.
Qed.

Lemma regex_test_spec (alts : list jsstring) (s : jsstring) :
  regex_test alts s = true <-> contains_one_of alts s.
Proof.
  unfold contains_one_of. induction s as [|c s IH]; cbn [regex_test].
  - rewrite orb_false_r, existsb_exists. split.
    + intros (w & Hin & Hw). apply starts_with_spec in Hw as (post & Hp).
      exists w, [], post. split; [now apply list_elem_of_In|done].
    + intros (w & pre & post & Hin & Heq).
      symmetry in Heq. apply app_eq_nil in Heq as (-> & Heq).
      exists w. split; [now apply list_elem_of_In|].
      apply starts_with_spec. exists post. now symmetry.
  - rewrite orb_true_iff, existsb_exists, IH. split.
    + intros [(w & Hin & Hw)|(w & pre & post & Hin & ->)].
      * apply starts_with_spec in Hw as (post & Hp).
        exists w, [], post. split; [now apply list_elem_of_In|done].
      * exists w, (c :: pre), post. done.
    + intros (w & pre & post & Hin & Heq). destruct pre as [|c' pre].
      * left. exists w. split; [now apply list_elem_of_In|].
        apply starts_with_spec. exists post. exact Heq.
      * right. injection Heq as -> ->. exists w, pre, post. done.
Qed.

(** C4. The intent is a function of the text alone: lower-cased, a text
    that contains a housing word is [dorm]; otherwise one that contains a
    study word is [study_place]; otherwise [general]. A text with words of
    both groups is [dorm]. *)
Theorem inferIntent_priority (q : option jsstring) :
  let s := toLowerCase (str_or q []) in
  (contains_one_of housing_words s -> inferIntent q = dorm)
  /\ (~ contains_one_of housing_words s -> contains_one_of study_words s ->
      inferIntent q = study_place)
  /\ (~ contains_one_of housing_words s -> ~ contains_one_of study_words s ->
      inferIntent q = general)
  /\ (contains_one_of housing_words s /\ contains_one_of study_words s ->
      inferIntent q = dorm).
Proof.
  intros s. unfold inferIntent. fold s.
  pose proof (regex_test_spec housing_words s) as Hh.
  pose proof (regex_test_spec study_words s) as Hs.
  destruct (regex_test housing_words s), (regex_test study_words s);
    repeat split; intros; try reflexivity; intuition congruence.
Qed.

(* ================================================================== *)
(** * Surrogates and previews *)

(** C5 (the code at the failing input). A valid surrogate pair, U+1F600
    encoded as D83D DE00, is removed whole, where removing only the unpaired
    surrogates keeps it. *)
Theorem stripLoneSurrogates_removes_valid_pair :
  stripLoneSurrogates (Some [55357; 56832]%N) = []
  /\ strip_unpaired [55357; 56832]%N = [55357; 56832]%N.
Proof. split; reflexivity. Qed.

Lemma stripLoneSurrogates_no_surrogate (s : option jsstring) :
  Forall (fun c => is_surrogate c = false) (stripLoneSurrogates s).
Proof.
  unfold stripLoneSurrogates. rewrite Forall_forall. intros c Hc.
  apply list_elem_of_In, List.filter_In in Hc as [_ Hc]. now apply negb_true_iff.
Qed.

Lemma Array_from_cons2 (c d : N) (s : jsstring) :
  Array_from (c :: d :: s)
  = if is_high_surrogate c && is_low_surrogate d
    then [c; d] :: Array_from s
    else [c] :: Array_from (d :: s).
Proof. reflexivity. Qed.

Lemma Array_from_units (s : jsstring) :
  (forall cp c, cp ∈ Array_from s -> c ∈ cp -> c ∈ s)
  /\ (forall c0 cp c, cp ∈ Array_from (c0 :: s) -> c ∈ cp -> c ∈ c0 :: s).
Proof.
  induction s as [|d s [IH1 IH2]]; split.
  - intros cp c H. inversion H.
  - intros c0 cp c H Hc. cbn in H. apply list_elem_of_singleton in H as ->. exact Hc.
  - exact (IH2 d).
  - intros c0 cp c. rewrite Array_from_cons2.
    destruct (is_high_surrogate c0 && is_low_surrogate d).
    + intros H Hc. apply elem_of_cons in H as [->|H].
      * set_solver.
      * specialize (IH1 _ _ H Hc). set_solver.
    + intros H Hc. apply elem_of_cons in H as [->|H].
      * set_solver.
      * specialize (IH2 d _ _ H Hc). set_solver.
Qed.

Lemma Array_from_length (s : jsstring) :
  (length (Array_from s) <= length s)%nat
  /\ (forall c0, length (Array_from (c0 :: s)) <= S (length s))%nat.
Proof.
  induction s as [|d s [IH1 IH2]]; split.
  - cbn; lia.
  - intros c0. cbn; lia.
  - exact (IH2 d).
  - intros c0. rewrite Array_from_cons2.
    destruct (is_high_surrogate c0 && is_low_surrogate d); cbn [length].
    + lia.
    + specialize (IH2 d). lia.
Qed.

(** A code point holds at most one code unit that is not a surrogate. *)
Lemma Array_from_one_unit (s : jsstring) :
  Forall (fun cp => length (List.filter (fun c => negb (is_surrogate c)) cp) <= 1)%nat
         (Array_from s)
  /\ (forall c0,
      Forall (fun cp => length (List.filter (fun c => negb (is_surrogate c)) cp) <= 1)%nat
             (Array_from (c0 :: s))).
Proof.
  induction s as [|d s [IH1 IH2]]; split.
  - constructor.
  - intros c0. cbn [Array_from]. constructor; [|constructor].
    cbn. destruct (negb (is_surrogate c0)); cbn; lia.
  - exact (IH2 d).
  - intros c0. rewrite Array_from_cons2.
    destruct (is_high_surrogate c0 && is_low_surrogate d) eqn:Hpair.
    + constructor; [|exact IH1].
      apply andb_true_iff in Hpair as [Hh Hl].
      assert (is_surrogate c0 = true) as Hc.
      { unfold is_high_surrogate, is_surrogate in *.
        apply andb_true_iff in Hh as [H1 H2]. apply N.leb_le in H1, H2.
        apply andb_true_iff. split; apply N.leb_le; lia. }
      assert (is_surrogate d = true) as Hd.
      { unfold is_low_surrogate, is_surrogate in *.
        apply andb_true_iff in Hl as [H1 H2]. apply N.leb_le in H1, H2.
        apply andb_true_iff. split; apply N.leb_le; lia. }
      cbn [List.filter]. rewrite Hc, Hd. cbn. lia.
    + constructor; [|exact (IH2 d)].
      cbn. destruct (negb (is_surrogate c0)); cbn; lia.
Qed.

Lemma join_nil_concat (l : list jsstring) : join [] l = concat l.
Proof.
  induction l as [|x l IH]; [reflexivity|].
  cbn [join concat]. destruct l as [|y l]; [now rewrite app_nil_r|].
  rewrite IH. reflexivity.
Qed.

Lemma filter_concat_length (l : list jsstring) :
  Forall (fun cp => length (List.filter (fun c => negb (is_surrogate c)) cp) <= 1)%nat l ->
  (length (List.filter (fun c => negb (is_surrogate c)) (concat l)) <= length l)%nat.
Proof.
  induction 1 as [|cp l Hcp Hl IH]; [cbn; lia|].
  cbn [concat]. rewrite List.filter_app, length_app. cbn [length]. lia.
Qed.

Lemma str_or_Some_nil (u : jsstring) : str_or (Some u) [] = u.
Proof. destruct u; reflexivity. Qed.

(** C6. A preview has at most [N] code points and no unpaired surrogate;
    the preview of an empty or undefined text is empty. *)
Theorem makePreview_bounded (s : option jsstring) (N : nat) :
  (length (Array_from (makePreview s (Z.of_nat N))) <= N)%nat
  /\ Forall (fun cp => lone_surrogate cp = false) (Array_from (makePreview s (Z.of_nat N)))
  /\ makePreview None (Z.of_nat N) = []
  /\ makePreview (Some []) (Z.of_nat N) = [].
Proof.
  split; [|split; [|split]].
  - etransitivity; [apply (proj1 (Array_from_length _))|].
    unfold makePreview, stripLoneSurrogates, safeTruncateByCodepoints.
    rewrite !str_or_Some_nil, join_nil_concat. etransitivity.
    + apply filter_concat_length. unfold slice0.
      apply Forall_take, (proj1 (Array_from_one_unit _)).
    + unfold slice0. rewrite length_take.
      destruct (Z.ltb_spec (Z.of_nat N) 0); lia.
  - rewrite Forall_forall. intros cp Hcp.
    pose proof (stripLoneSurrogates_no_surrogate
                  (Some (safeTruncateByCodepoints
                           (Some (trim (collapse_spaces (str_or s [])))) (Z.of_nat N)))) as Hno.
    fold (makePreview s (Z.of_nat N)) in Hno. rewrite Forall_forall in Hno.
    destruct cp as [|c [|d cp]]; try reflexivity. cbn [lone_surrogate].
    apply Hno. eapply (proj1 (Array_from_units _)); [exact Hcp|]. set_solver.
  - unfold makePreview, safeTruncateByCodepoints, slice0. cbn. now rewrite take_nil.
  - unfold makePreview, safeTruncateByCodepoints, slice0. cbn. now rewrite take_nil.
Qed.

(* ================================================================== *)
(** * The handler: validation *)

Lemma body_messages_array (b : Value) (l : list Value) :
  body_messages b = VArr l <-> messages_array b = Some l.
Proof.
  unfold body_messages, messages_array, get_prop_opt, get_prop.
  destruct b as [| | | | | |fields]; try (split; discriminate).
  destruct (lookup_field (lit "messages") fields); split; congruence.
Qed.

Lemma last_rejected_false (m : Value) :
  last_rejected m = false <-> user_turn_with_content m.
Proof.
  unfold last_rejected, user_turn_with_content. split.
  - intros H. apply orb_false_iff in H as [H Hc]. apply orb_false_iff in H as [Ht Hr].
    destruct m as [| | | | | |fields]; try discriminate.
    unfold get_prop_opt, get_prop in Hr, Hc.
    destruct (lookup_field (lit "content") fields) as [| | | |c| |] eqn:Ec; try discriminate.
    destruct (lookup_field (lit "role") fields) as [| | | |r| |] eqn:Er; try discriminate.
    cbn [strict_neq_str] in Hr. apply negb_false_iff, jsstring_eqb_eq in Hr as ->.
    exists fields, c. repeat split; try done.
    apply negb_false_iff in Hc. destruct (trim c); [discriminate|done].
  - intros (fields & c & -> & Hr & Hc & Htrim).
    unfold get_prop_opt, get_prop. rewrite Hr, Hc. cbn [truthy_value negb orb strict_neq_str].
    destruct (trim c); [done|]. reflexivity.
Qed.

(** C7. A request whose [messages] is missing, not an array or empty, or
    whose last element is not a user turn with content, is answered 400 with
    an [error] field, and no external call is made: the log of calls is as
    it was. *)
Theorem POST_rejects_invalid (b : Value) (log : list Call) :
  invalid_request b ->
  exists resp : Response,
    POST (inr b) log = (inr resp, log)
    /\ status resp = 400
    /\ is_Some (rb_error (body resp)).
Proof.
  unfold invalid_request. intros Hinv.
  unfold POST, try_catch, POST_try. cbn [lift]. unfold bindM at 1. unfold ret at 1.
  destruct (body_messages b) as [| | | | |items|] eqn:Hm;
    try (eexists; split; [reflexivity|split; [reflexivity|eexists; reflexivity]]).
  destruct items as [|first others];
    [eexists; split; [reflexivity|split; [reflexivity|eexists; reflexivity]]|].
  apply body_messages_array in Hm. rewrite Hm in Hinv.
  destruct (last (first :: others)) as [m|] eqn:Hlast.
  - change (default VUndefined (Some m)) with m.
    destruct (last_rejected m) eqn:Hrej.
    + eexists; split; [reflexivity|split; [reflexivity|eexists; reflexivity]].
    + apply last_rejected_false in Hrej. contradiction.
  - apply last_None in Hlast. discriminate.
Qed.

(** A body that is not JSON never reaches the validation: [req.json()]
    throws and the [catch] block answers 500. *)
Lemma POST_unparseable (e : Thrown) (log : list Call) :
  exists resp : Response,
    POST (inl e) log = (inr resp, log) /\ status resp = 500.
Proof. destruct e; eexists; split; reflexivity. Qed.

(* ================================================================== *)
(** * The query rewriter *)

Lemma turn_role (t : Turn) : get_prop (turn_value t) (lit "role") = inr (VStr (t_role t)).
Proof. reflexivity. Qed.

Lemma turn_content (t : Turn) :
  get_prop (turn_value t) (lit "content") = inr (VStr (t_content t)).
Proof. reflexivity. Qed.

Lemma mapM_turns (turns : list Turn) (log : list Call) :
  mapM (fun m =>
          let* role := lift (get_prop m (lit "role")) in
          let* content := lift (get_prop m (lit "content")) in
          ret {| cp_role := role; cp_content := content |})
       (turn_value <$> turns) log
  = (inr (history_of turns), log).
Proof.
  induction turns as [|t turns IH]; [reflexivity|].
  rewrite fmap_cons. cbn [mapM]. unfold bindM at 1.
  unfold bindM at 1. rewrite turn_role. cbn [lift]. unfold ret at 1.
  unfold bindM at 1. rewrite turn_content. cbn [lift]. unfold ret at 1. unfold ret at 1.
  unfold bindM at 1. rewrite IH. reflexivity.
Qed.

Lemma slice_last_fmap {A B : Type} (f : A -> B) (k : nat) (l : list A) :
  slice_last k (f <$> l) = f <$> slice_last k l.
Proof. unfold slice_last. now rewrite length_fmap, fmap_drop. Qed.

Lemma last_content_turns (turns : list Turn) (t : Turn) :
  last turns = Some t -> last_content (turn_value <$> turns) = VStr (t_content t).
Proof.
  intros Hlast. unfold last_content. rewrite fmap_last, Hlast. cbn [fmap option_fmap option_map].
  unfold get_prop_opt. now rewrite turn_content.
Qed.

Lemma empty_or_missing_falsy (resp : ChatCompletion) :
  empty_or_missing resp <-> truthy (first_content_trimmed resp) = false.
Proof.
  unfold empty_or_missing, first_content_trimmed.
  destruct (cc_choices resp) as [|choice rest]; [done|].
  destruct (ch_message choice) as [msg|]; [|done].
  destruct (cm_content msg) as [content|]; [|done].
  cbn [option_map truthy]. destruct (trim content); split; done.
Qed.

Lemma rewriteToStandalone_turns (turns : list Turn) (log : list Call) :
  rewriteToStandalone (turn_value <$> turns) log
  = match chat_create services log (rewrite_request turns) with
    | inl e => (inl e, log ++ [CallChat (rewrite_request turns)])
    | inr resp =>
        (inr (if truthy (first_content_trimmed resp)
              then VStr (str_or (first_content_trimmed resp) [])
              else if truthy_value (last_content (turn_value <$> turns))
                   then last_content (turn_value <$> turns)
                   else VStr []),
         log ++ [CallChat (rewrite_request turns)])
    end.
Proof.
  unfold rewriteToStandalone. rewrite slice_last_fmap.
  unfold bindM at 1. rewrite mapM_turns. unfold bindM at 1, call_chat.
  fold (rewrite_request turns).
  destruct (chat_create services log (rewrite_request turns)); reflexivity.
Qed.

(** C9. On a turn sequence whose last turn has non-empty content, when the
    rewrite call, the one request the rewriter sends, is answered: if the
    result is empty or missing, the rewriter returns the raw content of the
    last turn; and in every case what it returns is a non-empty string. The
    log of calls grows by that one call. *)
Theorem rewriteToStandalone_fallback (turns : list Turn) (t : Turn) (log : list Call)
    (resp : ChatCompletion) :
  last turns = Some t ->
  t_content t <> [] ->
  chat_create services log (rewrite_request turns) = inr resp ->
  (empty_or_missing resp ->
   rewriteToStandalone (turn_value <$> turns) log
   = (inr (VStr (t_content t)), log ++ [CallChat (rewrite_request turns)]))
  /\ (exists q : jsstring,
        rewriteToStandalone (turn_value <$> turns) log
        = (inr (VStr q), log ++ [CallChat (rewrite_request turns)])
        /\ q <> []).
Proof.
  intros Hlast Hne Hchat.
  assert (Htruthy : truthy_value (VStr (t_content t)) = true).
  { cbn. destruct (t_content t); [done|reflexivity]. }
  rewrite rewriteToStandalone_turns, Hchat, (last_content_turns _ _ Hlast), Htruthy.
  split.
  - intros Hempty. apply empty_or_missing_falsy in Hempty. now rewrite Hempty.
  - destruct (truthy (first_content_trimmed resp)) eqn:Hres.
    + eexists. split; [reflexivity|].
      destruct (first_content_trimmed resp) as [[|c s]|]; first [discriminate|done].
    + eexists. split; [reflexivity|exact Hne].
Qed.

(* ================================================================== *)
(** * The handler: degenerate outcomes *)

Lemma respond_no_candidates (q : jsstring) (intent : Intent) (log : list Call) :
  respond q intent [] log = (inr (degenerate_response no_candidates_answer q), log).
Proof. reflexivity. Qed.

Lemma respond_no_usable (q : jsstring) (intent : Intent) (rawMatches : list Match)
    (log : list Call) :
  rawMatches <> [] ->
  rankAndDedupe rawMatches intent = [] ->
  respond q intent rawMatches log = (inr (degenerate_response no_usable_answer q), log).
Proof.
  intros Hne Hnone. unfold respond. rewrite Hnone.
  destruct rawMatches as [|m l]; [done|]. reflexivity.
Qed.

(** A validated request whose three first calls succeed reaches step 3. *)
Lemma POST_reaches_respond (b : Value) (messages : list Value) (m : Value) (q : jsstring)
    (qVec : list float) (res : option QueryResponse) (log log1 log2 log3 : list Call) :
  messages_array b = Some messages ->
  last messages = Some m ->
  user_turn_with_content m ->
  rewriteToStandalone messages log = (inr (VStr q), log1) ->
  embedQuery q log1 = (inr qVec, log2) ->
  pineconeQuery qVec 18 log2 = (inr res, log3) ->
  POST (inr b) log
  = try_catch (respond q (inferIntent (Some q)) (rawMatches_of res)) POST_catch log3.
Proof.
  intros Hb Hlast Hm Hrw Hemb Hqry.
  apply body_messages_array in Hb. apply last_rejected_false in Hm.
  unfold POST, try_catch, POST_try. cbn [lift]. unfold bindM at 1. unfold ret at 1.
  rewrite Hb. destruct messages as [|first others]; [discriminate|].
  rewrite Hlast. change (default VUndefined (Some m)) with m. rewrite Hm.
  unfold bindM at 1. rewrite Hrw.
  unfold bindM at 1. unfold ret at 1.
  unfold bindM at 1. rewrite Hemb.
  unfold bindM at 1. rewrite Hqry. reflexivity.
Qed.

Lemma answers_differ : no_candidates_answer <> no_usable_answer.
Proof. discriminate. Qed.

(** C8 (amended). Retrieval returning no candidate, and retrieval returning
    candidates none of which is usable, are both answered 200 with empty
    matches, the rewritten question, no intent and a fixed message; the two
    messages are different texts. *)
Theorem degenerate_outcomes (b : Value) (messages : list Value) (m : Value) (q : jsstring)
    (qVec : list float) (res : option QueryResponse) (log log1 log2 log3 : list Call) :
  messages_array b = Some messages ->
  last messages = Some m ->
  user_turn_with_content m ->
  rewriteToStandalone messages log = (inr (VStr q), log1) ->
  embedQuery q log1 = (inr qVec, log2) ->
  pineconeQuery qVec 18 log2 = (inr res, log3) ->
  (rawMatches_of res = [] ->
   POST (inr b) log = (inr (degenerate_response no_candidates_answer q), log3))
  /\ (rawMatches_of res <> [] ->
      rankAndDedupe (rawMatches_of res) (inferIntent (Some q)) = [] ->
      POST (inr b) log = (inr (degenerate_response no_usable_answer q), log3))
  /\ no_candidates_answer <> no_usable_answer.
Proof.
  intros Hb Hlast Hm Hrw Hemb Hqry.
  rewrite (POST_reaches_respond _ _ _ _ _ _ _ _ _ _ Hb Hlast Hm Hrw Hemb Hqry).
  unfold try_catch. split; [|split; [|exact answers_differ]].
  - intros ->. now rewrite respond_no_candidates.
  - intros Hne Hnone. now rewrite respond_no_usable.
Qed.

(* ================================================================== *)
(** * Further properties: strings *)

Lemma trimStart_blank (s : jsstring) :
  trimStart s = [] <-> Forall (fun c => is_space c = true) s.
Proof.
  induction s as [|c s IH]; cbn [trimStart]; [split; [constructor|done]|].
  destruct (is_space c) eqn:Hc.
  - rewrite IH. split; [now constructor|]. intros H. now apply Forall_cons in H as [_ H].
  - split; [discriminate|]. intros H. apply Forall_cons in H as [H _]. congruence.
Qed.

Lemma trimStart_head (s : jsstring) (c : N) (t : jsstring) :
  trimStart s = c :: t -> is_space c = false.
Proof.
  induction s as [|d s IH]; cbn [trimStart]; [discriminate|].
  destruct (is_space d) eqn:Hd; [exact IH|]. intros H. injection H as -> _. exact Hd.
Qed.

Lemma trimStart_suffix (s : jsstring) : trimStart s `suffix_of` s.
Proof.
  induction s as [|c s IH]; cbn [trimStart]; [done|].
  destruct (is_space c); [now apply suffix_cons_r|done].
Qed.

Lemma trim_blank (s : jsstring) :
  trim s = [] <-> Forall (fun c => is_space c = true) s.
Proof.
  unfold trim, trimEnd. split.
  - intros H.
    assert (Hx : trimStart (rev (trimStart s)) = []).
    { destruct (trimStart (rev (trimStart s))) as [|c t]; [done|].
      cbn [rev] in H. apply app_eq_nil in H as [_ H]. discriminate. }
    apply trimStart_blank in Hx.
    destruct (trimStart s) as [|c t] eqn:Hs; [now apply trimStart_blank|].
    apply trimStart_head in Hs.
    apply Forall_rev in Hx. rewrite rev_involutive in Hx.
    apply Forall_cons in Hx as [Hx _]. congruence.
  - intros H. apply trimStart_blank in H. rewrite H. reflexivity.
Qed.

(** What [trim] returns has a unit that is not white space, unless empty. *)
Lemma trim_not_blank (s : jsstring) :
  trim s <> [] -> Exists (fun c => is_space c = false) (trim s).
Proof.
  unfold trim, trimEnd. intros H.
  destruct (trimStart (rev (trimStart s))) as [|c t] eqn:Hs; [done|].
  apply trimStart_head in Hs. cbn [rev].
  apply Exists_app. right. now constructor.
Qed.

Lemma not_blank_Exists (s : jsstring) :
  ~ Forall (fun c => is_space c = true) s <-> Exists (fun c => is_space c = false) s.
Proof.
  induction s as [|c s IH].
  - split; [intros H; destruct H; constructor|intros H; inversion H].
  - rewrite Forall_cons, Exists_cons, <- IH. destruct (is_space c); split.
    + intros H. right. intros Hs. apply H. done.
    + intros [?|H] [_ Hs]; [done|]. now apply H.
    + intros _. now left.
    + intros _ [? _]. done.
Qed.

(** X1. The text test of the selection loop: a candidate has usable text
    exactly when its metadata carries a text with at least one code unit
    that is not white space. *)
Theorem has_text_iff_not_blank (m : Match) :
  has_text m
  <-> exists (md : Metadata) (text : jsstring),
        m_metadata m = Some md /\ md_text md = Some text
        /\ Exists (fun c => is_space c = false) text.
Proof.
  unfold has_text, usable_text. split.
  - intros H.
    assert (Hne : trim (str_or (match m_metadata m with
                                | Some md => md_text md | None => None end) []) <> []).
    { intros Heq. rewrite Heq in H. discriminate. }
    rewrite trim_blank, not_blank_Exists in Hne.
    destruct (m_metadata m) as [md|]; [|inversion Hne].
    destruct (md_text md) as [text|] eqn:Ht; [|inversion Hne].
    exists md, text. split; [done|]. split; [done|].
    destruct text; [inversion Hne|exact Hne].
  - intros (md & text & -> & -> & Hex).
    assert (Hne : trim (str_or (Some text) []) <> []).
    { rewrite trim_blank, not_blank_Exists. destruct text; [inversion Hex|exact Hex]. }
    destruct (trim (str_or (Some text) [])); [done|reflexivity].
Qed.

Lemma filter_not_surrogate_id (s : jsstring) :
  Forall (fun c => is_surrogate c = false) s ->
  List.filter (fun c => negb (is_surrogate c)) s = s.
Proof.
  induction 1 as [|c s Hc Hs IH]; [reflexivity|].
  cbn [List.filter]. rewrite Hc. cbn [negb]. now rewrite IH.
Qed.

Lemma filter_sublist_of {A : Type} (f : A -> bool) (l : list A) :
  List.filter f l `sublist_of` l.
Proof.
  induction l as [|x l IH]; cbn [List.filter]; [constructor|].
  destruct (f x); [now apply sublist_skip|now apply sublist_cons].
Qed.

(** X2. [stripLoneSurrogates] only removes code units: what it returns is
    the input with some units left out, holds no surrogate, is the input
    itself when the input holds no surrogate, and is unchanged by a second
    pass. *)
Theorem stripLoneSurrogates_only_removes (s : jsstring) :
  stripLoneSurrogates (Some s) `sublist_of` s
  /\ Forall (fun c => is_surrogate c = false) (stripLoneSurrogates (Some s))
  /\ (Forall (fun c => is_surrogate c = false) s -> stripLoneSurrogates (Some s) = s)
  /\ stripLoneSurrogates (Some (stripLoneSurrogates (Some s))) = stripLoneSurrogates (Some s).
Proof.
  pose proof (stripLoneSurrogates_no_surrogate (Some s)) as Hno.
  unfold stripLoneSurrogates in *. rewrite !str_or_Some_nil in *.
  split; [apply filter_sublist_of|]. split; [exact Hno|].
  split; [apply filter_not_surrogate_id|now apply filter_not_surrogate_id].
Qed.

Lemma concat_Array_from (s : jsstring) :
  concat (Array_from s) = s /\ (forall c, concat (Array_from (c :: s)) = c :: s).
Proof.
  induction s as [|d s [IH1 IH2]]; split; try reflexivity.
  - exact (IH2 d).
  - intros c. rewrite Array_from_cons2.
    destruct (is_high_surrogate c && is_low_surrogate d); cbn [concat app].
    + now rewrite IH1.
    + now rewrite (IH2 d).
Qed.

Lemma Array_from_head (d : N) (s : jsstring) :
  exists (t : jsstring) (rest : list jsstring), Array_from (d :: s) = (d :: t) :: rest.
Proof.
  destruct s as [|e s]; [now exists [], []|].
  rewrite Array_from_cons2. destruct (_ && _); eexists _, _; reflexivity.
Qed.

(** Cutting between code points and iterating again gives the same code
    points: no pair forms or breaks at the cut. *)
Lemma Array_from_concat_take (s : jsstring) :
  (forall n, Array_from (concat (take n (Array_from s))) = take n (Array_from s))
  /\ (forall c n,
        Array_from (concat (take n (Array_from (c :: s)))) = take n (Array_from (c :: s))).
Proof.
  induction s as [|d s [IH1 IH2]]; split.
  - intros n. cbn. now rewrite take_nil.
  - intros c [|n]; [reflexivity|]. cbn. now rewrite take_nil.
  - exact (IH2 d).
  - intros c [|n]; [reflexivity|]. rewrite Array_from_cons2.
    destruct (is_high_surrogate c && is_low_surrogate d) eqn:Hpair; cbn [take concat app].
    + rewrite Array_from_cons2, Hpair, IH1. reflexivity.
    + destruct n as [|n]; [reflexivity|].
      destruct (Array_from_head d s) as (t & rest & Hhead).
      specialize (IH2 d (S n)). rewrite Hhead in IH2 |- *. cbn [take concat app] in IH2 |- *.
      rewrite Array_from_cons2, Hpair. now rewrite IH2.
Qed.

(** X3. [safeTruncateByCodepoints] keeps the first [N] code points of the
    string and nothing else: the code points of the result are the first [N]
    of the input (no surrogate pair is cut in half), the result is a prefix
    of the input, and a string of at most [N] code points is returned as it
    is. *)
Theorem safeTruncateByCodepoints_first_codepoints (s : jsstring) (N : nat) :
  Array_from (safeTruncateByCodepoints (Some s) (Z.of_nat N)) = take N (Array_from s)
  /\ safeTruncateByCodepoints (Some s) (Z.of_nat N) `prefix_of` s
  /\ ((length (Array_from s) <= N)%nat -> safeTruncateByCodepoints (Some s) (Z.of_nat N) = s).
Proof.
  unfold safeTruncateByCodepoints, slice0. rewrite str_or_Some_nil, join_nil_concat.
  assert (Hn : take (Z.to_nat (if Z.of_nat N <? 0
                               then Z.max (Z.of_nat (length (Array_from s)) + Z.of_nat N) 0
                               else Z.min (Z.of_nat N) (Z.of_nat (length (Array_from s)))))
                    (Array_from s)
               = take N (Array_from s)).
  { destruct (Z.ltb_spec (Z.of_nat N) 0); [lia|].
    destruct (Nat.le_gt_cases N (length (Array_from s))).
    - f_equal. lia.
    - rewrite !take_ge by lia. reflexivity. }
  rewrite Hn. split; [apply (proj1 (Array_from_concat_take s))|]. split.
  - exists (concat (drop N (Array_from s))).
    rewrite <- concat_app, take_drop. symmetry. apply (proj1 (concat_Array_from s)).
  - intros Hle. rewrite take_ge by lia. apply (proj1 (concat_Array_from s)).
Qed.

Lemma Forall_of_sublist {A : Type} (P : A -> Prop) (l k : list A) :
  l `sublist_of` k -> Forall P k -> Forall P l.
Proof.
  intros Hs. rewrite !Forall_forall. intros H x Hx. apply H.
  eapply elem_of_sublist; eassumption.
Qed.

Lemma Forall_of_suffix {A : Type} (P : A -> Prop) (l k : list A) :
  l `suffix_of` k -> Forall P k -> Forall P l.
Proof. intros (k' & ->) H. now apply Forall_app in H as [_ H]. Qed.

Lemma elem_of_concat {A : Type} (x : A) (ls : list (list A)) :
  x ∈ concat ls <-> exists l, x ∈ l /\ l ∈ ls.
Proof.
  rewrite list_elem_of_In, List.in_concat. split.
  - intros (l & Hl & Hx). exists l. now rewrite !list_elem_of_In.
  - intros (l & Hx & Hl). exists l. now rewrite <- !list_elem_of_In.
Qed.

Lemma collapse_from_spaces (b : bool) (s : jsstring) :
  Forall (fun c => is_space c = true -> c = 32%N) (collapse_from b s).
Proof.
  revert b. induction s as [|c s IH]; intros b; cbn [collapse_from]; [constructor|].
  destruct (is_space c) eqn:Hc.
  - destruct b; [apply IH|]. constructor; [done|apply IH].
  - constructor; [congruence|apply IH].
Qed.

Lemma Forall_trim (P : N -> Prop) (s : jsstring) : Forall P s -> Forall P (trim s).
Proof.
  intros H. unfold trim, trimEnd. apply Forall_rev.
  eapply Forall_of_suffix; [apply trimStart_suffix|]. apply Forall_rev.
  eapply Forall_of_suffix; [apply trimStart_suffix|exact H].
Qed.

Lemma Forall_truncate (P : N -> Prop) (s : jsstring) (maxLen : Z) :
  Forall P s -> Forall P (safeTruncateByCodepoints (Some s) maxLen).
Proof.
  intros H. unfold safeTruncateByCodepoints, slice0.
  rewrite str_or_Some_nil, join_nil_concat, Forall_forall in *.
  intros c Hc. apply H. apply elem_of_concat in Hc as (cp & Hc & Hcp).
  apply elem_of_take in Hcp as (i & Hcp & _). apply list_elem_of_lookup_2 in Hcp.
  eapply (proj1 (Array_from_units s)); eassumption.
Qed.

Lemma Forall_strip (P : N -> Prop) (s : jsstring) :
  Forall P s -> Forall P (stripLoneSurrogates (Some s)).
Proof.
  intros H. unfold stripLoneSurrogates. rewrite str_or_Some_nil.
  eapply Forall_of_sublist; [apply filter_sublist_of|exact H].
Qed.

Lemma makePreview_only_spaces (s : option jsstring) (maxLen : Z) :
  Forall (fun c => is_space c = true -> c = 32%N) (makePreview s maxLen).
Proof.
  unfold makePreview. apply Forall_strip, Forall_truncate, Forall_trim.
  apply collapse_from_spaces.
Qed.

Lemma makePreview_length (s : option jsstring) (N : nat) :
  (length (makePreview s (Z.of_nat N)) <= N)%nat.
Proof.
  unfold makePreview, stripLoneSurrogates, safeTruncateByCodepoints.
  rewrite !str_or_Some_nil, join_nil_concat. etransitivity.
  - apply filter_concat_length. unfold slice0.
    apply Forall_take, (proj1 (Array_from_one_unit _)).
  - unfold slice0. rewrite length_take.
    destruct (Z.ltb_spec (Z.of_nat N) 0); lia.
Qed.

(** X4. A preview is a single line of plain text: every white-space unit in
    it is the space U+0020 (line breaks and tabs of the text are collapsed
    away), it holds no surrogate, and it has at most [N] code units. *)
Theorem makePreview_single_line (s : option jsstring) (N : nat) :
  Forall (fun c => (is_space c = true -> c = 32%N) /\ is_surrogate c = false)
         (makePreview s (Z.of_nat N))
  /\ (length (makePreview s (Z.of_nat N)) <= N)%nat.
Proof.
  split; [|apply makePreview_length].
  apply Forall_and. split; [apply makePreview_only_spaces|].
  apply stripLoneSurrogates_no_surrogate.
Qed.

(* ================================================================== *)
(** * Further properties: ranking *)

Lemma rankAndDedupe_length (rawMatches : list Match) (intent : Intent) :
  length (rankAndDedupe rawMatches intent) = (8 `min` length (eligible_keys rawMatches))%nat.
Proof. now rewrite rankAndDedupe_select, length_take, eligible_keys_sorted. Qed.

Lemma remove_dups_length (l : list jsstring) :
  (length (remove_dups l) <= length l)%nat.
Proof.
  induction l as [|x l IH]; [done|]. cbn [remove_dups length].
  destruct (decide_rel elem_of x l); cbn [length]; lia.
Qed.

Lemma eligible_keys_length (rawMatches : list Match) :
  (length (eligible_keys rawMatches) <= length rawMatches)%nat.
Proof.
  unfold eligible_keys. etransitivity; [apply remove_dups_length|].
  rewrite length_fmap. apply sublist_length, sublist_filter.
Qed.

(** X5. The number of selected candidates is the number of dedupe keys that
    have a usable candidate, capped at 8; so it is never more than 8 and
    never more than the number of retrieved candidates. *)
Theorem rankAndDedupe_count (rawMatches : list Match) (intent : Intent) :
  length (rankAndDedupe rawMatches intent) = (8 `min` length (eligible_keys rawMatches))%nat
  /\ (length (rankAndDedupe rawMatches intent) <= 8)%nat
  /\ (length (rankAndDedupe rawMatches intent) <= length rawMatches)%nat.
Proof.
  pose proof (rankAndDedupe_length rawMatches intent).
  pose proof (eligible_keys_length rawMatches). lia.
Qed.

Lemma eligible_keys_nil (rawMatches : list Match) :
  eligible_keys rawMatches = [] <-> Forall (fun m => ~ has_text m) rawMatches.
Proof.
  unfold eligible_keys. split.
  - intros H. rewrite Forall_forall. intros m Hm Ht.
    assert (Hin : dedupeKey m ∈ remove_dups (dedupeKey <$> filter has_text rawMatches)).
    { apply elem_of_remove_dups, list_elem_of_fmap. exists m. split; [done|].
      now apply list_elem_of_filter. }
    rewrite H in Hin. inversion Hin.
  - intros H. replace (filter has_text rawMatches) with (@nil Match); [reflexivity|].
    symmetry. induction H as [|m l Hm Hl IH]; [reflexivity|].
    rewrite filter_cons, decide_False by assumption. exact IH.
Qed.

(** X6. Nothing is selected exactly when no retrieved candidate has usable
    text. *)
Theorem rankAndDedupe_empty_iff (rawMatches : list Match) (intent : Intent) :
  rankAndDedupe rawMatches intent = [] <-> Forall (fun m => ~ has_text m) rawMatches.
Proof.
  rewrite <- eligible_keys_nil. pose proof (rankAndDedupe_length rawMatches intent) as Hlen.
  split; intros H.
  - rewrite H in Hlen. cbn in Hlen. destruct (eligible_keys rawMatches); [done|].
    cbn in Hlen. lia.
  - rewrite H in Hlen. cbn in Hlen. now apply length_zero_iff_nil.
Qed.

(** X7. The selected candidates are retrieved candidates, each taken as it
    was returned and none taken more often than it was returned. *)
Theorem rankAndDedupe_from_retrieved (rawMatches : list Match) (intent : Intent) :
  b_match <$> rankAndDedupe rawMatches intent ⊆+ rawMatches.
Proof.
  rewrite <- (b_match_boost_all rawMatches intent) at 2.
  rewrite <- (Array_sort_perm compareFn (boost_all rawMatches intent)).
  apply sublist_submseteq, fmap_sublist, rankAndDedupe_sublist.
Qed.

Lemma select_key_elem (l : list Boosted) (k : jsstring) :
  k ∈ dedupeKey <$> (b_match <$> select l ∅)
  <-> k ∈ dedupeKey <$> filter has_text (b_match <$> l).
Proof.
  rewrite <- !(elem_of_list_to_set (C := gset jsstring)), select_keys. set_solver.
Qed.

(** X8. When at most 8 dedupe keys have a usable candidate, every one of
    them is the key of a selected candidate: the selection leaves no usable
    entity out. *)
Theorem rankAndDedupe_complete (rawMatches : list Match) (intent : Intent) :
  (length (eligible_keys rawMatches) <= 8)%nat ->
  dedupeKey <$> (b_match <$> rankAndDedupe rawMatches intent) ≡ₚ eligible_keys rawMatches.
Proof.
  intros Hfew. rewrite rankAndDedupe_select.
  rewrite take_ge by (rewrite eligible_keys_sorted; exact Hfew).
  apply NoDup_Permutation; [apply select_keys_NoDup|apply NoDup_remove_dups|].
  intros k. unfold eligible_keys. rewrite select_key_elem, elem_of_remove_dups.
  rewrite (Array_sort_perm compareFn), b_match_boost_all. reflexivity.
Qed.

Lemma first_usable_dominates (l : list Boosted) (p q : Boosted) :
  key_descending l -> first_usable_of_key l p ->
  q ∈ l -> has_text q -> dedupeKey q = dedupeKey p ->
  fkey (_boostedScore q) <= fkey (_boostedScore p).
Proof.
  intros Hs (before & after & -> & Hfirst) Hq Ht Hk.
  apply StronglySorted_app in Hs as (_ & _ & Hs). apply StronglySorted_inv in Hs as [_ Hafter].
  apply elem_of_app in Hq as [Hq|Hq]; [now destruct (Hfirst q Hq Hk)|].
  apply elem_of_cons in Hq as [->|Hq]; [lia|].
  rewrite Forall_forall in Hafter. now apply Hafter.
Qed.

Lemma sorted_facts (rawMatches : list Match) (intent : Intent) :
  Forall (fun m => not_nan (score_of m)) rawMatches ->
  scores_not_nan (Array_sort compareFn (boost_all rawMatches intent))
  /\ key_descending (Array_sort compareFn (boost_all rawMatches intent)).
Proof.
  intros Hnan. pose proof (boost_all_not_nan _ intent Hnan) as Hb. split.
  - unfold scores_not_nan. now rewrite Array_sort_perm.
  - now apply Array_sort_descending.
Qed.

Lemma leb_of_fkey (l : list Boosted) (p q : Boosted) :
  scores_not_nan l -> p ∈ l -> q ∈ l ->
  fkey (_boostedScore q) <= fkey (_boostedScore p) ->
  (_boostedScore q <=? _boostedScore p)%float = true.
Proof.
  unfold scores_not_nan. rewrite Forall_forall. intros Hl Hp Hq Hle.
  rewrite leb_fkey; [now apply Z.leb_le|now apply Hl|now apply Hl].
Qed.

(** X9. The candidate that represents a dedupe key in the selection has the
    highest boosted score among the usable candidates of that key. *)
Theorem rankAndDedupe_best_of_key (rawMatches : list Match) (intent : Intent)
    (p q : Boosted) :
  Forall (fun m => not_nan (score_of m)) rawMatches ->
  p ∈ rankAndDedupe rawMatches intent ->
  q ∈ boost_all rawMatches intent ->
  has_text q ->
  dedupeKey q = dedupeKey p ->
  (_boostedScore q <=? _boostedScore p)%float = true.
Proof.
  intros Hnan Hp Hq Ht Hk. destruct (sorted_facts _ intent Hnan) as [Hn Hs].
  rewrite <- (Array_sort_perm compareFn) in Hq.
  assert (Hp' : p ∈ Array_sort compareFn (boost_all rawMatches intent))
    by (eapply elem_of_sublist; [exact Hp|apply rankAndDedupe_sublist]).
  apply (leb_of_fkey _ _ _ Hn Hp' Hq).
  rewrite rankAndDedupe_select in Hp.
  apply elem_of_take in Hp as (i & Hp & _). apply list_elem_of_lookup_2 in Hp.
  apply select_spec in Hp as (Hfirst & _ & _).
  now apply (first_usable_dominates _ _ _ Hs Hfirst).
Qed.

(** X10. The cap leaves out only the lowest ranked entities: a usable
    candidate whose dedupe key is not represented in the selection has a
    boosted score no greater than that of any selected candidate. *)
Theorem rankAndDedupe_cap_drops_lowest (rawMatches : list Match) (intent : Intent)
    (p q : Boosted) :
  Forall (fun m => not_nan (score_of m)) rawMatches ->
  p ∈ rankAndDedupe rawMatches intent ->
  q ∈ boost_all rawMatches intent ->
  has_text q ->
  dedupeKey q ∉ dedupeKey <$> (b_match <$> rankAndDedupe rawMatches intent) ->
  (_boostedScore q <=? _boostedScore p)%float = true.
Proof.
  intros Hnan Hp Hq Ht Hk. destruct (sorted_facts _ intent Hnan) as [Hn Hs].
  set (sorted := Array_sort compareFn (boost_all rawMatches intent)) in *.
  rewrite <- (Array_sort_perm compareFn) in Hq. fold sorted in Hq.
  assert (Hp' : p ∈ sorted)
    by (eapply elem_of_sublist; [exact Hp|apply rankAndDedupe_sublist]).
  apply (leb_of_fkey _ _ _ Hn Hp' Hq).
  rewrite rankAndDedupe_select in Hp, Hk. fold sorted in Hp, Hk.
  assert (Hin : dedupeKey q ∈ dedupeKey <$> (b_match <$> select sorted ∅)).
  { apply select_key_elem, list_elem_of_fmap. exists (b_match q). split; [done|].
    apply list_elem_of_filter. split; [done|]. apply list_elem_of_fmap. now exists q. }
  apply list_elem_of_fmap in Hin as (m0 & Hk0 & Hin).
  apply list_elem_of_fmap in Hin as (q0 & -> & Hq0).
  assert (Hsel : StronglySorted
                   (fun a b => fkey (_boostedScore b) <= fkey (_boostedScore a))
                   (take 8 (select sorted ∅) ++ drop 8 (select sorted ∅))).
  { rewrite take_drop. eapply StronglySorted_sublist; [apply select_sublist|exact Hs]. }
  rewrite <- (take_drop 8 (select sorted ∅)) in Hq0.
  apply elem_of_app in Hq0 as [Hq0|Hq0].
  - destruct Hk. rewrite Hk0. apply list_elem_of_fmap. exists (b_match q0). split; [done|].
    apply list_elem_of_fmap. now exists q0.
  - pose proof (StronglySorted_app_1_elem_of _ _ _ _ _ Hsel Hp Hq0) as Hle.
    assert (Hq0' : q0 ∈ select sorted ∅)
      by (rewrite <- (take_drop 8 (select sorted ∅)); apply elem_of_app; now right).
    apply select_spec in Hq0' as (Hfirst & _ & _).
    pose proof (first_usable_dominates _ _ _ Hs Hfirst Hq Ht Hk0). cbn in Hle. lia.
Qed.

(* ================================================================== *)
(** * Further properties: what is sent to the client and to the model *)

Lemma str_or_nonempty (a : option jsstring) (d : jsstring) : d <> [] -> str_or a d <> [].
Proof.
  intros Hd. unfold str_or. destruct a as [[|c s]|]; cbn; done.
Qed.

Lemma makePreview_no_surrogate (s : option jsstring) (maxLen : Z) :
  Forall (fun c => is_surrogate c = false) (makePreview s maxLen).
Proof. unfold makePreview. apply stripLoneSurrogates_no_surrogate. Qed.

(** X11. The response projector returns one match per selected candidate,
    in order: the match at a position is the projection of the candidate at
    that position alone, and carries its score. Every match has a type and a
    title that are not empty, and a snippet of at most 220 code units that
    holds no surrogate and no white space other than the space U+0020. *)
Theorem matchesToClient_shape (matches : list Match) (intent : Intent) :
  length (matchesToClient matches intent) = length matches
  /\ Forall2 (fun m c =>
       matchesToClient [m] intent = [c]
       /\ mc_score c = score_of m
       /\ mc_type c <> [] /\ mc_title c <> []
       /\ (length (mc_snippet c) <= 220)%nat
       /\ Forall (fun u => (is_space u = true -> u = 32%N) /\ is_surrogate u = false)
                 (mc_snippet c))
     matches (matchesToClient matches intent).
Proof.
  unfold matchesToClient. split; [apply length_fmap|].
  apply Forall2_fmap_r, Forall_Forall2_diag, Forall_forall. intros m _.
  cbn [compose mc_score mc_type mc_title mc_snippet].
  split; [reflexivity|]. split; [reflexivity|].
  split; [now repeat apply str_or_nonempty|]. split; [now repeat apply str_or_nonempty|].
  destruct (truthy (md_text_preview (metadata_of m)));
    (split; [apply (makePreview_length _ 220)|]);
    (apply Forall_and; split; [apply makePreview_only_spaces|apply makePreview_no_surrogate]).
Qed.




(* ================================================================== *)
(** * Further properties: the handler *)

Lemma bindM_inv {A B : Type} (c : M A) (k : A -> M B) (log log' : list Call)
    (r : Thrown + B) :
  bindM c k log = (r, log') ->
  (exists e, c log = (inl e, log') /\ r = inl e)
  \/ (exists a log1, c log = (inr a, log1) /\ k a log1 = (r, log')).
Proof.
  unfold bindM. destruct (c log) as [[e|a] log1]; intros H.
  - left. exists e. now injection H as <- <-.
  - right. now exists a, log1.
Qed.

Lemma read_turn_cases (m : Value) (log : list Call) :
  (is_nullish m = true /\ exists e, read_turn m log = (inl e, log))
  \/ (is_nullish m = false /\ exists p, read_turn m log = (inr p, log)).
Proof.
  destruct m; (left; split; [reflexivity|eexists; reflexivity])
              || (right; split; [reflexivity|eexists; reflexivity]).
Qed.

Lemma mapM_read_turn (l : list Value) (log : list Call) :
  exists r, mapM read_turn l log = (r, log)
            /\ ((exists x, x ∈ l /\ is_nullish x = true) <-> exists e, r = inl e).
Proof.
  induction l as [|m l (r & IH & Hnull)]; cbn [mapM].
  - eexists. split; [reflexivity|]. split.
    + intros (x & Hx & _). inversion Hx.
    + intros (e & He). discriminate.
  - unfold bindM at 1.
    destruct (read_turn_cases m log) as [(Hm & e & ->)|(Hm & p & ->)].
    + eexists. split; [reflexivity|]. split; [intros _; now exists e|].
      intros _. exists m. split; [apply list_elem_of_here|exact Hm].
    + unfold bindM at 1. rewrite IH. destruct r as [e|ps].
      * eexists. split; [reflexivity|]. split; [intros _; now exists e|].
        intros _. destruct (proj2 Hnull) as (x & Hx & Hxn); [now exists e|].
        exists x. split; [now apply list_elem_of_further|exact Hxn].
      * eexists. split; [reflexivity|]. split; [|intros (e & He); discriminate].
        intros (x & Hx & Hxn).
        apply elem_of_cons in Hx as [->|Hx]; [congruence|].
        destruct (proj1 Hnull) as (e & He); [now exists x|discriminate].
Qed.

(** How [rewriteToStandalone] ends: before its call, or after it. *)
Lemma rewriteToStandalone_cases (messages : list Value) (log : list Call) :
  (exists e, rewriteToStandalone messages log = (inl e, log)
             /\ exists x, x ∈ slice_last 12 messages /\ is_nullish x = true)
  \/ (exists history r,
        mapM read_turn (slice_last 12 messages) log = (inr history, log)
        /\ r = {| cr_model := lit "gpt-4o-mini";
                  cr_temperature := 0;
                  cr_messages :=
                    [ {| cp_role := VStr (lit "system");
                         cp_content := VStr rewrite_system_prompt |} ]
                    ++ history ++ [rewrite_instruction] |}
        /\ ((exists e, chat_create services log r = inl e
                       /\ rewriteToStandalone messages log = (inl e, log ++ [CallChat r]))
            \/ (exists resp, chat_create services log r = inr resp
                  /\ rewriteToStandalone messages log
                     = (inr (if truthy (first_content_trimmed resp)
                             then VStr (str_or (first_content_trimmed resp) [])
                             else if truthy_value (last_content messages)
                                  then last_content messages
                                  else VStr []),
                        log ++ [CallChat r])))).
Proof.
  remember (rewriteToStandalone messages log) as res eqn:Hres.
  unfold rewriteToStandalone in Hres. fold read_turn in Hres.
  change (fun m => read_turn m) with read_turn in Hres.
  destruct (mapM_read_turn (slice_last 12 messages) log) as (r & Hr & Hnull).
  unfold bindM at 1 in Hres. rewrite Hr in Hres. destruct r as [e|history].
  - left. exists e. split; [exact Hres|]. apply Hnull. now exists e.
  - right. eexists history, _. split; [exact Hr|]. split; [reflexivity|].
    unfold bindM, call_chat, ret in Hres.
    fold rewrite_instruction in Hres.
    destruct (chat_create services log _) as [e|resp] eqn:Hc.
    + left. exists e. split; [reflexivity|exact Hres].
    + right. exists resp. split; [reflexivity|exact Hres].
Qed.

Lemma trimStart_clean (s : jsstring) : starts_clean (trimStart s).
Proof.
  destruct (trimStart s) as [|c t] eqn:Hs; [exact I|]. now apply trimStart_head in Hs.
Qed.

Lemma trimStart_id (s : jsstring) : starts_clean s -> trimStart s = s.
Proof. destruct s as [|c s]; [done|]. cbn. now intros ->. Qed.

Lemma trimEnd_prefix (s : jsstring) : trimEnd s `prefix_of` s.
Proof.
  unfold trimEnd. destruct (trimStart_suffix (rev s)) as (k & Hk).
  exists (rev k). rewrite <- rev_app_distr, <- Hk. now rewrite rev_involutive.
Qed.

Lemma prefix_clean (s t : jsstring) : s `prefix_of` t -> starts_clean t -> starts_clean s.
Proof. intros (k & ->). destruct s; [done|]. exact (fun H => H). Qed.

Lemma trim_idem (s : jsstring) : trim (trim s) = trim s.
Proof.
  assert (Hc : starts_clean (trim s)).
  { unfold trim. eapply prefix_clean; [apply trimEnd_prefix|apply trimStart_clean]. }
  unfold trim at 1. rewrite (trimStart_id _ Hc).
  unfold trim, trimEnd. rewrite rev_involutive.
  rewrite trimStart_id by apply trimStart_clean. reflexivity.
Qed.

Lemma invalid_request_cases (b : Value) :
  invalid_request b
  <-> match body_messages b with
      | VArr (first :: others) =>
          last_rejected (default VUndefined (last (first :: others))) = true
      | _ => True
      end.
Proof.
  unfold invalid_request.
  destruct (messages_array b) as [l|] eqn:Hl.
  - apply body_messages_array in Hl. rewrite Hl.
    destruct l as [|first others]; [done|].
    destruct (last (first :: others)) as [m|] eqn:Hlast;
      [|apply last_None in Hlast; discriminate].
    change (default VUndefined (Some m)) with m.
    rewrite <- last_rejected_false. destruct (last_rejected m); split; congruence.
  - destruct (body_messages b) as [| | | | |l|] eqn:Hb; try done.
    apply body_messages_array in Hb. congruence.
Qed.

Lemma validated_last_content (messages : list Value) (m : Value) :
  last messages = Some m -> last_rejected m = false ->
  exists c, last_content messages = VStr c /\ c <> [].
Proof.
  intros Hlast Hm. apply last_rejected_false in Hm as (fields & c & -> & _ & Hc & Htrim).
  exists c. unfold last_content. rewrite Hlast. unfold get_prop_opt, get_prop. rewrite Hc.
  split; [done|]. intros ->. now apply Htrim.
Qed.

Lemma no_surrogate_strip (s : option jsstring) :
  Forall (fun c => is_surrogate c = false) (stripLoneSurrogates s).
Proof. apply stripLoneSurrogates_no_surrogate. Qed.

Lemma window_not_null (b : Value) (messages : list Value) (history : list ChatParam)
    (log : list Call) :
  body_messages b = VArr messages ->
  mapM read_turn (slice_last 12 messages) log = (inr history, log) ->
  ~ null_in_window b.
Proof.
  intros Hb Hmap (messages' & x & Hb' & Hx & Hnull).
  apply body_messages_array in Hb. rewrite Hb in Hb'. injection Hb' as <-.
  destruct (mapM_read_turn (slice_last 12 messages) log) as (r & Hr & Hiff).
  rewrite Hmap in Hr.
  destruct Hiff as [Hiff _]. destruct Hiff as (e & He); [now exists x|].
  rewrite He in Hr. discriminate.
Qed.

(** Every request with a parsed body ends in one of the outcomes. *)
Lemma POST_outcome (b : Value) (log : list Call) :
  exists resp calls, POST (inr b) log = (inr resp, log ++ calls) /\ Outcome b log resp calls.
Proof.
  pose proof (invalid_request_cases b) as Hinv.
  unfold POST, try_catch, POST_try. cbn [lift]. unfold bindM at 1. unfold ret at 1.
  destruct (body_messages b) as [| | | | |items|] eqn:Hbody;
    try (eexists _, []; rewrite app_nil_r; split; [reflexivity|];
         apply rejected; now apply Hinv).
  destruct items as [|first others];
    [eexists _, []; rewrite app_nil_r; split; [reflexivity|];
     apply rejected; now apply Hinv|].
  set (messages := first :: others) in *.
  destruct (last messages) as [m|] eqn:Hlast; [|apply last_None in Hlast; discriminate].
  change (default VUndefined (Some m)) with m in *.
  destruct (last_rejected m) eqn:Hrej.
  { eexists _, []. rewrite app_nil_r. split; [reflexivity|]. apply rejected. now apply Hinv. }
  assert (Hvalid : ~ invalid_request b) by (rewrite Hinv; congruence).
  destruct (validated_last_content _ _ Hlast Hrej) as (c & Hlc & Hc).
  unfold bindM at 1.
  destruct (rewriteToStandalone_cases messages log)
    as [(e & -> & x & Hx & Hnull)
       |(history & r1 & Hmap & Hr1 & [(e & Hchat1 & ->)|(resp & Hchat1 & ->)])].
  - eexists _, []. rewrite app_nil_r. split; [reflexivity|].
    apply failed_reading; [done|]. exists messages, x.
    split; [now apply body_messages_array|done].
  - pose proof (window_not_null _ _ _ _ Hbody Hmap) as Hwin.
    eexists _, [CallChat r1]. split; [reflexivity|].
    apply (failed_calling b log (catch_message e) [] (CallChat r1)); try done.
    + subst r1. cbn. done.
    + cbn. rewrite app_nil_r. now exists e.
  - pose proof (window_not_null _ _ _ _ Hbody Hmap) as Hwin.
    assert (Hq : exists q,
               (if truthy (first_content_trimmed resp)
                then VStr (str_or (first_content_trimmed resp) [])
                else if truthy_value (last_content messages)
                     then last_content messages else VStr []) = VStr q
               /\ q <> []).
    { destruct (first_content_trimmed resp) as [[|u t]|]; cbn [truthy nonempty str_or];
        rewrite ?Hlc; cbn [truthy_value]; destruct c; try done; eexists; (split; [reflexivity|done]). }
    destruct Hq as (q & -> & Hq).
    assert (A1 : call_answered log (CallChat r1)) by now exists resp.
    unfold bindM at 1. unfold ret at 1.
    unfold bindM at 1. unfold embedQuery, bindM at 1, call_embed.
    set (e1 := {| er_model := lit "text-embedding-3-small"; er_dimensions := 512;
                  er_input := stripLoneSurrogates (Some q) |}).
    assert (P2 : pipeline_calls [CallChat r1; CallEmbed e1]).
    { subst r1 e1. cbn -[stripLoneSurrogates]. repeat split; try done; apply no_surrogate_strip. }
    destruct (embeddings_create services (log ++ [CallChat r1]) e1) as [e|emb] eqn:Hemb.
    { eexists _, [CallChat r1; CallEmbed e1]. rewrite <- !app_assoc.
      split; [reflexivity|].
      apply (failed_calling b log (catch_message e) [CallChat r1] (CallEmbed e1)); try done.
      left. now exists e. }
    destruct (emb_data emb) as [|item rest] eqn:Hdata.
    { eexists _, [CallChat r1; CallEmbed e1]. rewrite <- !app_assoc.
      split; [reflexivity|].
      apply (failed_calling b log _ [CallChat r1] (CallEmbed e1)); try done.
      right. exists emb. split; [done|]. split; [done|reflexivity]. }
    assert (A2 : call_answered (log ++ [CallChat r1]) (CallEmbed e1)).
    { exists item, rest. rewrite Hemb. f_equal. destruct emb. cbn in Hdata. now subst. }
    unfold ret at 1. unfold bindM at 1. unfold pineconeQuery, call_query.
    set (p := {| qp_vector := ei_embedding item; qp_topK := 18; qp_includeMetadata := true;
                 qp_namespace := if truthy namespaceFallback then namespaceFallback
                                 else None |}).
    assert (P3 : pipeline_calls [CallChat r1; CallEmbed e1; CallQuery p]).
    { subst r1 e1. cbn -[stripLoneSurrogates]. repeat split; try done; apply no_surrogate_strip. }
    destruct (index_query services ((log ++ [CallChat r1]) ++ [CallEmbed e1]) p)
      as [e|res] eqn:Hqry.
    { eexists _, [CallChat r1; CallEmbed e1; CallQuery p]. rewrite <- !app_assoc.
      split; [reflexivity|].
      apply (failed_calling b log (catch_message e) [CallChat r1; CallEmbed e1] (CallQuery p));
        try done.
      cbn. replace (log ++ [CallChat r1; CallEmbed e1])
        with ((log ++ [CallChat r1]) ++ [CallEmbed e1]) by now rewrite <- app_assoc.
      now exists e. }
    assert (A3 : call_answered ((log ++ [CallChat r1]) ++ [CallEmbed e1]) (CallQuery p))
      by now exists res.
    unfold respond.
    destruct (rawMatches_of res) as [|m0 raw] eqn:Hraw.
    { eexists _, [CallChat r1; CallEmbed e1; CallQuery p]. rewrite <- !app_assoc.
      split; [reflexivity|]. now apply no_candidates. }
    cbn [length Nat.ltb Nat.leb negb].
    destruct (rankAndDedupe (m0 :: raw) (inferIntent (Some q))) as [|p0 picked] eqn:Hpick.
    { eexists _, [CallChat r1; CallEmbed e1; CallQuery p]. rewrite <- !app_assoc.
      split; [reflexivity|]. now apply no_usable. }
    cbn [length Nat.ltb Nat.leb negb].
    unfold bindM at 1. unfold askLLM, bindM at 1, call_chat.
    match goal with |- context [CallChat ?r] =>
      lazymatch r with
      | context [answer_system_prompt] => set (r2 := r)
      end end.
    assert (P4 : pipeline_calls [CallChat r1; CallEmbed e1; CallQuery p; CallChat r2]).
    { subst r1 e1. cbn -[stripLoneSurrogates]. repeat split; try done; apply no_surrogate_strip. }
    destruct (chat_create services _ r2) as [e|completion] eqn:Hchat2.
    { eexists _, [CallChat r1; CallEmbed e1; CallQuery p; CallChat r2]. rewrite <- !app_assoc.
      split; [reflexivity|].
      apply (failed_calling b log (catch_message e) [CallChat r1; CallEmbed e1; CallQuery p]
               (CallChat r2)); try done.
      cbn. replace (log ++ [CallChat r1; CallEmbed e1; CallQuery p])
        with (((log ++ [CallChat r1]) ++ [CallEmbed e1]) ++ [CallQuery p])
        by now rewrite <- !app_assoc.
      now exists e. }
    eexists _, [CallChat r1; CallEmbed e1; CallQuery p; CallChat r2]. rewrite <- !app_assoc.
    split; [unfold ret; rewrite <- Hpick; reflexivity|].
    apply (answered b log q _ (m0 :: raw)); try done.
    + cbn. repeat split; try done. now exists completion.
    + rewrite Hpick. done.
    + destruct (first_content_trimmed completion) as [[|u t]|] eqn:Hfc; cbn [str_or nonempty]; try done.
      unfold first_content_trimmed in Hfc.
      destruct (cc_choices completion) as [|ch ?]; [done|].
      destruct (ch_message ch) as [msg|]; [|done].
      destruct (cm_content msg) as [content|]; [|done].
      cbn in Hfc. injection Hfc as <-. apply trim_idem.
Qed.

(** X13. The rewriter sends the chat model one request, at temperature 0:
    the fixed system instruction, then the last 12 turns of the conversation
    at most, in their order, then the fixed closing instruction; older
    turns are not sent. *)
Theorem rewriteToStandalone_window (turns : list Turn) (log : list Call) :
  exists r : ChatRequest,
    snd (rewriteToStandalone (turn_value <$> turns) log) = log ++ [CallChat r]
    /\ cr_temperature r = 0%float
    /\ cr_messages r
       = {| cp_role := VStr (lit "system"); cp_content := VStr rewrite_system_prompt |}
         :: history_of (drop (length turns - 12) turns) ++ [rewrite_instruction]
    /\ (length (cr_messages r) <= 14)%nat.
Proof.
  unfold rewriteToStandalone. rewrite slice_last_fmap.
  unfold bindM at 1. rewrite mapM_turns. unfold bindM at 1, call_chat.
  eexists. split; [|split; [|split]].
  - destruct (chat_create services log _); reflexivity.
  - reflexivity.
  - reflexivity.
  - cbn [cr_messages app length]. unfold slice_last, history_of.
    rewrite length_app, length_fmap, length_drop. cbn [length]. lia.
Qed.

(** X14. A [null] among the last 12 messages makes the handler fail before
    any external call, also when the last message is a valid user turn: the
    request is answered 500 and the log of calls is as it was. *)
Theorem POST_null_in_window (b : Value) (messages : list Value) (m : Value)
    (log : list Call) :
  messages_array b = Some messages ->
  last messages = Some m ->
  user_turn_with_content m ->
  (exists x, x ∈ slice_last 12 messages /\ is_nullish x = true) ->
  exists resp : Response,
    POST (inr b) log = (inr resp, log) /\ status resp = 500.
Proof.
  intros Hb Hlast Hm Hnull.
  apply body_messages_array in Hb. apply last_rejected_false in Hm.
  unfold POST, try_catch, POST_try. cbn [lift]. unfold bindM at 1. unfold ret at 1.
  rewrite Hb. destruct messages as [|first others]; [discriminate|].
  rewrite Hlast. change (default VUndefined (Some m)) with m. rewrite Hm.
  unfold bindM at 1.
  destruct (rewriteToStandalone_cases (first :: others) log)
    as [(e & -> & _)|(history & r1 & Hmap & _)].
  - destruct e; eexists; split; reflexivity.
  - destruct (mapM_read_turn (slice_last 12 (first :: others)) log) as (r & Hr & Hiff).
    rewrite Hmap in Hr. apply Hiff in Hnull as (e & He).
    rewrite He in Hr. discriminate.
Qed.

Lemma Outcome_status (b : Value) (log : list Call) (resp : Response) (calls : list Call) :
  Outcome b log resp calls ->
  (status resp = 200 \/ status resp = 400 \/ status resp = 500)
  /\ (status resp = 200 <-> rb_error (body resp) = None)
  /\ (status resp = 200 <-> is_Some (rb_answer (body resp)))
  /\ (status resp = 200 <-> is_Some (rb_matches (body resp))).
Proof.
  destruct 1; cbn; repeat split; intros; try done; try lia; try (eexists; reflexivity);
    try (right; lia);
    match goal with H : is_Some None |- _ => destruct H as [? [=]] | _ => idtac end.
Qed.

(** X15. The handler answers every request: it never throws. The status is
    200, 400 or 500; a 200 response has an answer and matches and no error
    field, and any other response has an error field and neither answer nor
    matches. *)
Theorem POST_always_answers (req : Thrown + Value) (log : list Call) :
  exists (resp : Response) (log' : list Call),
    POST req log = (inr resp, log')
    /\ (status resp = 200 \/ status resp = 400 \/ status resp = 500)
    /\ (status resp = 200 <-> rb_error (body resp) = None)
    /\ (status resp = 200 <-> is_Some (rb_answer (body resp)))
    /\ (status resp = 200 <-> is_Some (rb_matches (body resp))).
Proof.
  destruct req as [e|b].
  - destruct e; eexists _, _; (split; [reflexivity|]); cbn;
      repeat split; intros; try done; try lia; try (right; right; reflexivity);
      match goal with H : is_Some None |- _ => destruct H as [? [=]] end.
  - destruct (POST_outcome b log) as (resp & calls & Heq & Hout).
    exists resp, (log ++ calls). split; [exact Heq|]. exact (Outcome_status _ _ _ _ Hout).
Qed.

(** X16. The handler answers 400 exactly for the invalid requests: a
    request whose last message is a user turn with content is never answered
    400, whatever the services do, and an invalid request costs no call. *)
Theorem POST_400_iff_invalid (b : Value) (log : list Call) :
  exists (resp : Response) (calls : list Call),
    POST (inr b) log = (inr resp, log ++ calls)
    /\ (status resp = 400 <-> invalid_request b)
    /\ (invalid_request b -> calls = []).
Proof.
  destruct (POST_outcome b log) as (resp & calls & Heq & Hout).
  exists resp, calls. split; [exact Heq|].
  destruct Hout; cbn; repeat split; intros; try done; try lia.
Qed.

(** X17. For one request the handler calls the services in pipeline order
    and each at most once: the rewrite at temperature 0, then the embedding
    with 512 dimensions and an input without surrogates, then the index for
    18 candidates with metadata, then the synthesis at temperature 0.6;
    never more than these four calls. *)
Theorem POST_call_protocol (req : Thrown + Value) (log : list Call) :
  exists calls : list Call,
    snd (POST req log) = log ++ calls /\ pipeline_calls calls /\ (length calls <= 4)%nat.
Proof.
  assert (Hlen : forall calls, pipeline_calls calls -> (length calls <= 4)%nat).
  { intros calls H. destruct calls as [|[]]; cbn in *; try done; try lia. destruct H as [_ H].
    destruct calls as [|[]]; cbn in *; try done; try lia. destruct H as (_ & _ & H).
    destruct calls as [|[]]; cbn in *; try done; try lia. destruct H as (_ & _ & H).
    destruct calls as [|[] [|]]; cbn in *; try done; try lia. }
  destruct req as [e|b].
  - exists []. rewrite app_nil_r. split; [now destruct e|]. split; [exact I|cbn; lia].
  - destruct (POST_outcome b log) as (resp & calls & Heq & Hout).
    exists calls. rewrite Heq. split; [reflexivity|].
    assert (pipeline_calls calls) by now destruct Hout. auto.
Qed.

(** X18. Every 200 response carries a rewritten question that is not empty
    and at most 8 matches. Without matches it carries one of the two fixed
    answers and no intent, and three calls were made; with matches it
    carries the intent inferred from the rewritten question and a trimmed
    answer, and four calls were made. *)
Theorem POST_ok_response (req : Thrown + Value) (log : list Call) :
  exists (resp : Response) (calls : list Call),
    POST req log = (inr resp, log ++ calls)
    /\ (status resp = 200 ->
        exists (q : jsstring) (ms : list MatchForClient) (answer : jsstring),
          rb_rewrittenQuestion (body resp) = Some q /\ q <> []
          /\ rb_matches (body resp) = Some ms /\ (length ms <= 8)%nat
          /\ rb_answer (body resp) = Some answer
          /\ (ms = [] ->
              rb_intent (body resp) = None /\ length calls = 3%nat
              /\ (answer = no_candidates_answer \/ answer = no_usable_answer))
          /\ (ms <> [] ->
              rb_intent (body resp) = Some (Intent_str (inferIntent (Some q)))
              /\ length calls = 4%nat /\ trim answer = answer)).
Proof.
  destruct req as [e|b].
  - destruct e; eexists _, []; rewrite app_nil_r; (split; [reflexivity|]); cbn; lia.
  - destruct (POST_outcome b log) as (resp & calls & Heq & Hout).
    exists resp, calls. split; [exact Heq|].
    destruct Hout as [msg|msg|msg prior c|q calls|q calls
                     |q answer raw calls ? ? ? ? ? ? Hpick Htrim];
      cbn [status json_response]; try lia; intros _.
    + exists q, [], no_candidates_answer. cbn. repeat split; try done; try lia. now left.
    + exists q, [], no_usable_answer. cbn. repeat split; try done; try lia. now right.
    + eexists q, _, answer. cbn [body rb_rewrittenQuestion rb_matches rb_answer rb_intent].
      split; [reflexivity|]. split; [done|]. split; [reflexivity|].
      assert (Hlen : length (matchesToClient
                               (b_match <$> rankAndDedupe raw (inferIntent (Some q)))
                               (inferIntent (Some q)))
                     = length (rankAndDedupe raw (inferIntent (Some q))))
        by (unfold matchesToClient; now rewrite !length_fmap).
      split; [rewrite Hlen, rankAndDedupe_length; lia|]. split; [reflexivity|]. split.
      * intros Hnil. apply (f_equal length) in Hnil. rewrite Hlen in Hnil. cbn in Hnil.
        apply length_zero_iff_nil in Hnil. contradiction.
      * intros _. done.
Qed.

(** X19. The handler stops at the first call that fails. A 500 response to
    a parsed request means that a message of the window is [null] or
    [undefined] and no call was made, or that the last call made failed
    after every earlier one was answered, and then the response carries the
    message of that failure: that of the thrown value, or, when the
    embedding model answers without any embedding, that of the [TypeError]
    of reading the first embedding. A 200 response means every call was
    answered. *)
Theorem POST_stops_at_first_failure (b : Value) (log : list Call) :
  exists (resp : Response) (calls : list Call),
    POST (inr b) log = (inr resp, log ++ calls)
    /\ (status resp = 500 ->
        (calls = [] /\ null_in_window b)
        \/ exists prior c message,
             calls = prior ++ [c]
             /\ calls_answered log prior
             /\ call_fails (log ++ prior) c message
             /\ rb_error (body resp) = Some message)
    /\ (status resp = 200 -> calls_answered log calls /\ ~ null_in_window b).
Proof.
  destruct (POST_outcome b log) as (resp & calls & Heq & Hout).
  exists resp, calls. split; [exact Heq|].
  destruct Hout as [msg|msg|msg prior c|q calls|q calls|q answer raw calls];
    cbn [status json_response degenerate_response]; split; intros; try done; try lia.
  - now left.
  - right. now exists prior, c, msg.
Qed.

(** X20. When the services answer whatever they are asked, every valid
    request without [null] or [undefined] among its last 12 messages is
    answered 200. *)
Theorem POST_ok_when_services_answer (b : Value) (log : list Call) :
  services_answer ->
  ~ invalid_request b ->
  ~ null_in_window b ->
  exists (resp : Response) (calls : list Call),
    POST (inr b) log = (inr resp, log ++ calls) /\ status resp = 200.
Proof.
  intros Hs Hvalid Hwin.
  destruct (POST_outcome b log) as (resp & calls & Heq & Hout).
  exists resp, calls. split; [exact Heq|].
  destruct Hout as [msg|msg|msg prior c ? ? ? ? Hfail|q calls|q calls|q answer raw calls];
    try done.
  exfalso. pose proof (Hs (log ++ prior) c) as Hok.
  destruct c as [r|r|p]; cbn in Hfail, Hok.
  - destruct Hfail as (e & He & _), Hok as (x & Hx). congruence.
  - destruct Hok as (item & rest & Hx).
    destruct Hfail as [(e & He & _)|(emb & He & Hd & _)]; [congruence|].
    rewrite Hx in He. injection He as <-. discriminate.
  - destruct Hfail as (e & He & _), Hok as (x & Hx). congruence.
Qed.

Lemma pipeline_calls_second (c1 c2 : Call) (later : list Call) :
  pipeline_calls (c1 :: c2 :: later) -> exists r e, c1 = CallChat r /\ c2 = CallEmbed e.
Proof.
  destruct c1 as [r| |]; try done. intros [_ H].
  destruct c2 as [|e|]; try done. now exists r, e.
Qed.

(** X21. For a valid request without [null] in its window: when the
    rewrite call the handler makes is answered and the embedding call it
    makes throws an error, the request ends after exactly these two calls.
    It is answered 500 with the message of that error, and neither the index
    nor the synthesis is called. The conditions are on these two calls only,
    whatever the services do on other requests. *)
Theorem POST_embedding_down (b : Value) (log : list Call) (message : jsstring) :
  (forall r later,
      snd (POST (inr b) log) = log ++ CallChat r :: later ->
      call_answered log (CallChat r)) ->
  (forall r e later,
      snd (POST (inr b) log) = log ++ CallChat r :: CallEmbed e :: later ->
      embeddings_create services (log ++ [CallChat r]) e = inl (ErrorObj message)) ->
  ~ invalid_request b ->
  ~ null_in_window b ->
  exists r1 e1,
    POST (inr b) log
    = (inr (json_response (error_body message) 500), log ++ [CallChat r1; CallEmbed e1]).
Proof.
  intros Hchat Hdown Hvalid Hwin.
  destruct (POST_outcome b log) as (resp & calls & Heq & Hout).
  rewrite Heq in Hchat, Hdown. cbn [snd] in Hchat, Hdown.
  assert (Hlong : forall c1 c2 later,
             calls = c1 :: c2 :: later -> pipeline_calls calls ->
             ~ calls_answered log (c1 :: c2 :: later)).
  { intros c1 c2 later -> Hp (_ & Ha & _).
    destruct (pipeline_calls_second _ _ _ Hp) as (r & e & -> & ->).
    destruct Ha as (item & rest & Ha).
    rewrite (Hdown r e later eq_refl) in Ha. discriminate. }
  destruct Hout as [msg|msg|msg prior c ? ? Hp Ha Hfail|q calls ? ? ? Hp Hl Ha
                   |q calls ? ? ? Hp Hl Ha|q answer raw calls ? ? ? Hp Hl Ha];
    try done;
    try (exfalso; destruct calls as [|c1 [|c2 later]]; [done|done|];
         now apply (Hlong c1 c2 later)).
  destruct prior as [|c1 [|c2 later]].
  - destruct c as [r| |]; try done. exfalso.
    destruct Hfail as (e & He & _). cbn in He. rewrite app_nil_r in He.
    destruct (Hchat r [] eq_refl) as (x & Hx). congruence.
  - destruct (pipeline_calls_second c1 c [] Hp) as (r & e & -> & ->).
    pose proof (Hdown r e [] eq_refl) as Hthrown.
    destruct Hfail as [(err & He & ->)|(emb & He & _)]; rewrite Hthrown in He;
      [|discriminate].
    injection He as <-. exists r, e. exact Heq.
  - exfalso. cbn [app] in Hp. destruct (pipeline_calls_second _ _ _ Hp) as (r & e & -> & ->).
    destruct Ha as (_ & (item & rest & Ha) & _).
    rewrite (Hdown r e (later ++ [c]) eq_refl) in Ha. discriminate.
Qed.

(** ** The page and the handler together *)

Lemma payloadMessages_snoc (messages : list Message) (question : jsstring) (now : N) :
  exists earlier : list ApiMessage,
    payloadMessages (messages ++ [userMsg question now])
    = earlier ++ [ {| am_role := role_user; am_content := question |} ]
    /\ (length earlier <= 11)%nat.
Proof.
  unfold payloadMessages, slice_last, MAX_MESSAGES_TO_SEND.
  rewrite filter_app.
  assert (Hu : filter (fun m => msg_id m <> lit "welcome") [userMsg question now]
               = [userMsg question now]).
  { rewrite filter_cons_True; [reflexivity|]. cbn [msg_id userMsg]. discriminate. }
  rewrite Hu. set (l := filter _ messages).
  rewrite length_app. cbn [length].
  rewrite drop_app_le by lia. rewrite fmap_app. eexists. split; [reflexivity|].
  rewrite length_fmap, length_drop. lia.
Qed.

Lemma request_body_valid (earlier : list ApiMessage) (question : jsstring) :
  trim question <> [] ->
  ~ invalid_request
      (request_body (earlier ++ [ {| am_role := role_user; am_content := question |} ]))
  /\ ~ null_in_window
         (request_body (earlier ++ [ {| am_role := role_user; am_content := question |} ])).
Proof.
  intros Hq. split.
  - unfold invalid_request, request_body. cbn [messages_array].
    change (lookup_field (lit "messages") [(lit "messages", ?v)]) with v.
    cbn match. rewrite fmap_snoc, last_snoc. intros H. apply H.
    eexists _, question. split; [reflexivity|]. repeat split; done.
  - intros (messages & x & Hm & Hx & Hnull).
    unfold request_body in Hm. cbn [messages_array] in Hm.
    change (lookup_field (lit "messages") [(lit "messages", ?v)]) with v in Hm.
    injection Hm as <-. unfold slice_last in Hx.
    apply (subseteq_drop _ _ x) in Hx.
    apply list_elem_of_fmap in Hx as (m & -> & _). discriminate.
Qed.


(** X23. The window of the rewriter never cuts what the page sends: for a
    request of the page the chat model receives the system instruction,
    every message of the payload in order, and the closing instruction. *)
Theorem page_payload_fits_window (nextMessages : list Message) (log : list Call) :
  exists r : ChatRequest,
    snd (rewriteToStandalone (ApiMessage_json <$> payloadMessages nextMessages) log)
    = log ++ [CallChat r]
    /\ cr_messages r
       = {| cp_role := VStr (lit "system"); cp_content := VStr rewrite_system_prompt |}
         :: ((fun m => {| cp_role := VStr (ApiRole_str (am_role m));
                          cp_content := VStr (am_content m) |})
               <$> payloadMessages nextMessages)
            ++ [rewrite_instruction].
Proof.
  set (payload := payloadMessages nextMessages).
  assert (Hlen : (length payload <= 12)%nat).
  { unfold payload, payloadMessages, slice_last, MAX_MESSAGES_TO_SEND.
    rewrite length_fmap, length_drop. lia. }
  assert (Hturns : ApiMessage_json <$> payload
                   = turn_value <$> ((fun m => {| t_role := ApiRole_str (am_role m);
                                                  t_content := am_content m |}) <$> payload)).
  { rewrite <- list_fmap_compose. reflexivity. }
  rewrite Hturns. unfold rewriteToStandalone. rewrite slice_last_fmap.
  unfold bindM at 1. rewrite mapM_turns. unfold bindM at 1, call_chat.
  eexists. split; [destruct (chat_create services log _); reflexivity|].
  cbn [cr_messages app]. f_equal. f_equal.
  unfold slice_last. rewrite length_fmap.
  replace (length payload - 12)%nat with 0%nat by lia. rewrite drop_0.
  unfold history_of. rewrite <- list_fmap_compose. reflexivity.
Qed.

Lemma sendMessage_endpoint_cases (log : list Call) (now1 now2 : N) (st : PageState) :
  can_send st ->
  exists resp calls,
    POST (inr (request_body
                 (payloadMessages (ps_messages st ++ [userMsg (trim (ps_input st)) now1]))))
         log
    = (inr resp, log ++ calls)
    /\ Outcome (request_body
                  (payloadMessages (ps_messages st ++ [userMsg (trim (ps_input st)) now1])))
               log resp calls
    /\ ~ invalid_request
           (request_body
              (payloadMessages (ps_messages st ++ [userMsg (trim (ps_input st)) now1])))
    /\ ~ null_in_window
           (request_body
              (payloadMessages (ps_messages st ++ [userMsg (trim (ps_input st)) now1])))
    /\ sendMessage (endpoint log) now1 now2 st
       = let nextMessages := ps_messages st ++ [userMsg (trim (ps_input st)) now1] in
         if negb (res_ok resp) then
           {| ps_input := [];
              ps_messages := nextMessages;
              ps_loading := false;
              ps_error :=
                Some (str_or (rb_error (body resp))
                        (lit "Request failed with " ++ lit (pretty (status resp)))) |}
         else
           {| ps_input := [];
              ps_messages :=
                nextMessages
                ++ [ {| msg_id := lit "assistant-" ++ lit (pretty now2);
                        msg_role := role_assistant;
                        msg_content :=
                          str_or (rb_answer (body resp)) (lit "No answer returned.");
                        msg_matches := Some (default [] (rb_matches (body resp))) |} ];
              ps_loading := false;
              ps_error := None |}.
Proof.
  intros [Hq Hl].
  set (b := request_body _).
  destruct (POST_outcome b log) as (resp & calls & Heq & Hout).
  exists resp, calls. split; [exact Heq|]. split; [exact Hout|].
  assert (Hv : ~ invalid_request b /\ ~ null_in_window b).
  { unfold b.
    destruct (payloadMessages_snoc (ps_messages st) (trim (ps_input st)) now1)
      as (earlier & -> & _).
    apply request_body_valid. now rewrite trim_idem. }
  split; [apply Hv|]. split; [apply Hv|].
  unfold sendMessage. rewrite Hl.
  destruct (trim (ps_input st)) as [|c s] eqn:Ht; [done|].
  cbn [nonempty negb orb]. unfold endpoint. fold b. rewrite Heq. reflexivity.
Qed.

(** X24. A request of the page is never rejected by the validation: with
    the handler as endpoint, sending from a state that can send ends with
    the input cleared and no request under way, and either the question and
    an answer that is not empty with at most 8 matches are appended and no
    error is shown, or only the question is appended, an error text that is
    not empty is shown, and the handler answered 500, never 400. *)
Theorem sendMessage_never_rejected (log : list Call) (now1 now2 : N) (st : PageState) :
  can_send st ->
  let st' := sendMessage (endpoint log) now1 now2 st in
  ps_input st' = [] /\ ps_loading st' = false
  /\ ((exists answer : Message,
         ps_messages st' = ps_messages st ++ [userMsg (trim (ps_input st)) now1; answer]
         /\ ps_error st' = None
         /\ msg_role answer = role_assistant
         /\ msg_content answer <> []
         /\ exists ms, msg_matches answer = Some ms /\ (length ms <= 8)%nat)
      \/ (exists (e : jsstring) (resp : Response) (log' : list Call),
            ps_messages st' = ps_messages st ++ [userMsg (trim (ps_input st)) now1]
            /\ ps_error st' = Some e /\ e <> []
            /\ POST (inr (request_body
                            (payloadMessages
                               (ps_messages st ++ [userMsg (trim (ps_input st)) now1]))))
                    log
               = (inr resp, log')
            /\ status resp = 500)).
Proof.
  intros Hs st'.
  destruct (sendMessage_endpoint_cases log now1 now2 st Hs)
    as (resp & calls & Heq & Hout & Hv & Hw & Hst).
  unfold st'. rewrite Hst. clear Hst st'.
  assert (Hne : forall a, str_or a (lit "No answer returned.") <> [])
    by (intros a; now apply str_or_nonempty).
  destruct Hout as [msg|msg|msg prior c|q calls|q calls
                   |q answer raw calls ? ? ? ? ? ? Hpick Htrim];
    try done; cbn -[userMsg str_or lit];
    (split; [reflexivity|]); (split; [reflexivity|]).
  - right. eexists _, _, _. split; [reflexivity|]. split; [reflexivity|].
    split; [now apply str_or_nonempty|]. split; [exact Heq|reflexivity].
  - left. eexists. rewrite <- app_assoc. split; [reflexivity|]. split; [reflexivity|].
    split; [reflexivity|]. split; [apply Hne|]. eexists. split; [reflexivity|]. cbn. lia.
  - left. eexists. rewrite <- app_assoc. split; [reflexivity|]. split; [reflexivity|].
    split; [reflexivity|]. split; [apply Hne|]. eexists. split; [reflexivity|]. cbn. lia.
  - left. eexists. rewrite <- app_assoc. split; [reflexivity|]. split; [reflexivity|].
    split; [reflexivity|]. split; [apply Hne|]. eexists. split; [reflexivity|].
    cbn [default msg_matches]. unfold matchesToClient. rewrite !length_fmap.
    rewrite rankAndDedupe_length. lia.
Qed.

(** X25. The icon and the label of a card agree: the place icon goes with
    the label "Study place", the home icon with "Dorm", and the article icon
    with "Guide" or "Source". *)
Theorem typeIcon_typeLabel (type : option jsstring) :
  (typeIcon type = PlaceIcon <-> typeLabel type = lit "Study place")
  /\ (typeIcon type = HomeIcon <-> typeLabel type = lit "Dorm")
  /\ (typeIcon type = ArticleIcon
      <-> typeLabel type = lit "Guide" \/ typeLabel type = lit "Source").
Proof.
  unfold typeIcon, typeLabel, jsstring_eqb.
  repeat case_bool_decide; cbn [orb];
    repeat split; intros; try done; try (now left); try (now right);
    match goal with H : _ \/ _ |- _ => destruct H; done end.
Qed.

(** X26. The label the page gives a match tells whether the handler
    boosted it: the boost is not zero exactly when the label is "Dorm" under
    intent dorm, "Study place" under intent study_place, or "Guide" under
    intent general. *)
Theorem boost_shows_in_label (m : Match) (intent : Intent) (c : MatchForClient) :
  toLowerCase [] = [] ->
  toLowerCase (lit "unknown") = lit "unknown" ->
  matchesToClient [m] intent = [c] ->
  (scoreBoost m intent <> 0%float
   <-> typeLabel (Some (mc_type c))
       = match intent with
         | dorm => lit "Dorm"
         | study_place => lit "Study place"
         | general => lit "Guide"
         end).
Proof.
  intros Hempty Hunknown Hc. injection Hc as <-. cbn [mc_type].
  rewrite scoreBoost_table. unfold candidate_type, typeLabel, boost_table, jsstring_eqb.
  set (md := metadata_of m).
  destruct (str_or (md_entity_type md) (str_or (md_kind md) [])) as [|u t] eqn:Hx.
  - assert (Hy : str_or (md_entity_type md) (str_or (md_kind md) (lit "unknown"))
                 = lit "unknown").
    { unfold str_or in *. destruct (md_entity_type md) as [[|]|], (md_kind md) as [[|]|];
        cbn in *; done. }
    rewrite Hy. cbn [str_or nonempty]. change (nonempty (lit "unknown")) with true.
    cbn match. rewrite Hempty, Hunknown.
    destruct intent; repeat case_decide; repeat case_bool_decide; cbn [orb];
      split; intros; try done;
      match goal with H : _ \/ _ |- _ => destruct H; done | _ => idtac end.
  - assert (Hy : str_or (md_entity_type md) (str_or (md_kind md) (lit "unknown"))
                 = u :: t).
    { unfold str_or in *. destruct (md_entity_type md) as [[|]|], (md_kind md) as [[|]|];
        cbn in *; done. }
    rewrite Hy. cbn [str_or nonempty].
    destruct intent; repeat case_decide; repeat case_bool_decide; cbn [orb];
      split; intros; try done;
      match goal with
      | H : _ \/ _ |- _ => destruct H
      | H : ~ (_ \/ _) |- _ => exfalso; apply H; auto
      | _ => idtac
      end; try congruence;
      exfalso;
      match goal with
      | H : toLowerCase ?x = _, H' : toLowerCase ?x = _ |- _ =>
          rewrite H in H'; vm_compute in H'; discriminate H'
      | H : lit _ = lit _ |- _ => vm_compute in H; discriminate H
      end.
Qed.

(** X27. A record is boosted under one intent at most: when its boost is
    not zero under two intents, the two intents are the same. *)
Theorem scoreBoost_one_intent (m : Match) (i j : Intent) :
  scoreBoost m i <> 0%float -> scoreBoost m j <> 0%float -> i = j.
Proof.
  rewrite !scoreBoost_table. unfold boost_table.
  destruct i, j; repeat case_decide; intros Hi Hj; try done; exfalso;
    repeat match goal with H : _ \/ _ |- _ => destruct H end;
    match goal with
    | H : candidate_type m = _, H' : candidate_type m = _ |- _ =>
        rewrite H in H'; vm_compute in H'; discriminate H'
    end.
Qed.

End Route.

(* ================================================================== *)
(** * The properties at sample inputs *)

Example inferIntent_dorms :
  inferIntent asciiLower (Some (lit "cheap dorms near Garching")) = dorm.
Proof. reflexivity. Qed.

Example inferIntent_both :
  inferIntent asciiLower (Some (lit "quiet room in a dorm")) = dorm.
Proof. reflexivity. Qed.

Example inferIntent_study :
  inferIntent asciiLower (Some (lit "quiet place with wifi open late")) = study_place.
Proof. reflexivity. Qed.

(** [open] is a study word. *)
Example inferIntent_open :
  inferIntent asciiLower (Some (lit "how do I open a bank account")) = study_place.
Proof. reflexivity. Qed.

Example inferIntent_general :
  inferIntent asciiLower (Some (lit "Which visa do I need?")) = general.
Proof. reflexivity. Qed.

Example makePreview_collapses :
  makePreview (Some (lit "  hello    world  ")) 7 = lit "hello w".
Proof. reflexivity. Qed.

(** U+1F600 counts as one code point when truncating, and is then removed. *)
Example makePreview_emoji :
  makePreview (Some ([55357; 56832]%N ++ lit "ab")) 2 = lit "a".
Proof. reflexivity. Qed.

(** A negative [maxLen] is not a bound: [slice] counts from the end. *)
Example makePreview_negative :
  makePreview (Some (lit "abc")) (-1) = lit "ab".
Proof. reflexivity. Qed.

Example dedupeKey_name :
  dedupeKey (entity "v1" "dorm" "Olydorf" "Rent: 350." 0.61) = lit "name:Olydorf".
Proof. reflexivity. Qed.

Example rankAndDedupe_ten :
  m_id <$> (b_match <$> rankAndDedupe asciiLower ten_candidates dorm)
  = Some <$> [lit "v2"; lit "v6"; lit "v1"; lit "v3"; lit "v5"; lit "v7"; lit "v9"; lit "v4"].
Proof. vm_compute. reflexivity. Qed.

(** A whole request: four calls, eight matches. *)
Example POST_ten :
  let '(result, log) :=
    POST asciiLower None (silent_services ten_candidates) (inr sample_request) [] in
  (length log,
   match result with
   | inr resp => (status resp, length <$> rb_matches (body resp), rb_intent (body resp))
   | inl _ => (0, None, None)
   end)
  = (4%nat, (200, Some 8%nat, Some (lit "dorm"))).
Proof. vm_compute. reflexivity. Qed.


(** C2, as stated, at two records of one name: the selected record is the
    second of its key in sorted order, the first having no usable text. *)
Lemma first_of_key_fails :
  ~ (forall (toLowerCase : jsstring -> jsstring) (rawMatches : list Match) (intent : Intent)
            (p : Boosted),
        p ∈ rankAndDedupe toLowerCase rawMatches intent ->
        first_of_key (Array_sort compareFn (boost_all toLowerCase rawMatches intent)) p).
Proof.
  intros H.
  set (p := {| b_match := entity "b" "dorm" "Olydorf" "Student village in the Olympic park." 0.5;
               _boostedScore := 0.5 |}).
  specialize (H asciiLower blank_then_text general p).
  assert (Hp : p ∈ rankAndDedupe asciiLower blank_then_text general)
    by (vm_compute; apply list_elem_of_here).
  destruct (H Hp) as (before & after & Heq & Hfirst).
  assert (Hsorted : Array_sort compareFn (boost_all asciiLower blank_then_text general)
                    = [ {| b_match := entity "a" "dorm" "Olydorf" "   " 0.9;
                           _boostedScore := 0.9 |}; p ])
    by (vm_compute; reflexivity).
  rewrite Hsorted in Heq.
  destruct before as [|x before].
  - apply (f_equal (fun l => m_id <$> (b_match <$> head l))) in Heq.
    vm_compute in Heq. discriminate.
  - apply (f_equal head) in Heq. cbn [head app] in Heq. apply (inj Some) in Heq. subst x.
    apply (Hfirst _ (list_elem_of_here _ _)). vm_compute. reflexivity.
Qed.

(** C3 at a dorm and at a study place under intent dorm. *)
Lemma boostedScore_table_witness :
  boosted_olydorf ∈ boost_all asciiLower ten_candidates dorm
  /\ _boostedScore boosted_olydorf = (score_of boosted_olydorf + 0.08)%float
  /\ boosted_stucafe ∈ boost_all asciiLower ten_candidates dorm
  /\ (_boostedScore boosted_stucafe =? score_of boosted_stucafe)%float = true.
Proof.
  assert (H1 : boosted_olydorf ∈ boost_all asciiLower ten_candidates dorm)
    by (vm_compute; apply list_elem_of_here).
  assert (H2 : boosted_stucafe ∈ boost_all asciiLower ten_candidates dorm)
    by (vm_compute; apply list_elem_of_further, list_elem_of_here).
  destruct (boostedScore_table asciiLower ten_candidates dorm boosted_olydorf H1)
    as (_ & Hdorm & _).
  destruct (boostedScore_table asciiLower ten_candidates dorm boosted_stucafe H2)
    as (_ & _ & Hother).
  split; [exact H1|]. split.
  - apply Hdorm; [reflexivity|vm_compute; reflexivity].
  - split; [exact H2|].
    apply Hother; [reflexivity|vm_compute; discriminate|vm_compute; reflexivity].
Defined.

(** C7 at [{ messages: [] }]. *)
Lemma POST_rejects_invalid_witness :
  exists resp : Response,
    POST asciiLower None (silent_services []) (inr empty_request) [] = (inr resp, [])
    /\ status resp = 400
    /\ is_Some (rb_error (body resp)).
Proof.
  apply POST_rejects_invalid. vm_compute. exact I.
Defined.

(** C8 at a request the index answers with one record without text. *)
Lemma degenerate_outcomes_witness :
  fst (POST asciiLower None (silent_services [textless]) (inr sample_request) [])
  = inr (degenerate_response no_usable_answer cheap_dorms).
Proof.
  edestruct (degenerate_outcomes asciiLower None (silent_services [textless])
               sample_request) as (_ & Hnone & _).
  - vm_compute. reflexivity.
  - vm_compute. reflexivity.
  - eexists _, _. split; [reflexivity|]. split; [vm_compute; reflexivity|].
    split; [vm_compute; reflexivity|]. vm_compute. discriminate.
  - vm_compute. reflexivity.
  - vm_compute. reflexivity.
  - vm_compute. reflexivity.
  - rewrite Hnone; [reflexivity|vm_compute; discriminate|vm_compute; reflexivity].
Defined.

(** C8, as stated: one request, answered once by an index without a match
    and once by an index with one record without text. The two responses
    differ outside their diagnostic fields, in [answer]. *)
Lemma degenerate_outcomes_distinguishable :
  ~ (forall (found_a found_b : list Match) (r_a r_b : Response),
        found_a = [] ->
        found_b <> [] ->
        rankAndDedupe asciiLower found_b (inferIntent asciiLower (Some cheap_dorms)) = [] ->
        fst (POST asciiLower None (silent_services found_a) (inr sample_request) []) = inr r_a ->
        fst (POST asciiLower None (silent_services found_b) (inr sample_request) []) = inr r_b ->
        without_diagnostics r_a = without_diagnostics r_b).
Proof.
  intros H.
  specialize (H [] [textless]
                (degenerate_response no_candidates_answer cheap_dorms)
                (degenerate_response no_usable_answer cheap_dorms)
                eq_refl ltac:(discriminate)
                ltac:(vm_compute; reflexivity)
                ltac:(vm_compute; reflexivity)
                ltac:(vm_compute; reflexivity)).
  vm_compute in H. discriminate.
Qed.

(** C9 at a two-turn conversation and a chat model that returns no choice
    to the rewrite call, and a text to other requests. *)
Lemma rewriteToStandalone_fallback_witness :
  rewriteToStandalone picky_services (turn_value <$> two_turns) []
  = (inr (VStr (lit "is it quiet?")), [] ++ [CallChat (rewrite_request two_turns)]).
Proof.
  refine (proj1 (rewriteToStandalone_fallback picky_services two_turns
                   {| t_role := lit "user"; t_content := lit "is it quiet?" |} []
                   {| cc_choices := [] |} eq_refl _ _) _).
  - vm_compute. discriminate.
  - vm_compute. reflexivity.
  - vm_compute. exact I.
Defined.

(* ================================================================== *)
(** * The further properties at sample inputs *)

Lemma sample_request_valid :
  ~ invalid_request sample_request /\ ~ null_in_window sample_request.
Proof.
  split.
  - intros H. apply H. eexists _, cheap_dorms. split; [reflexivity|].
    split; [reflexivity|]. split; [reflexivity|]. vm_compute. discriminate.
  - intros (messages & x & Hm & Hx & Hnull). injection Hm as <-.
    vm_compute in Hx. apply list_elem_of_singleton in Hx. subst x. discriminate.
Qed.

Lemma silent_services_answer (found : list Match) : services_answer (silent_services found).
Proof. intros log [r|r|p]; cbn; eauto. Qed.

(** X8 at two records of one name. *)
Lemma rankAndDedupe_complete_witness :
  dedupeKey <$> (b_match <$> rankAndDedupe asciiLower two_olydorf dorm)
  ≡ₚ eligible_keys two_olydorf.
Proof.
  apply rankAndDedupe_complete. vm_compute. lia.
Defined.

(** X9 at two records of one name: the one of score 0.9 is selected. *)
Lemma rankAndDedupe_best_of_key_witness :
  (_boostedScore boosted_a <=? _boostedScore boosted_b)%float = true.
Proof.
  apply (rankAndDedupe_best_of_key asciiLower two_olydorf dorm boosted_b boosted_a).
  - repeat constructor.
  - vm_compute. apply list_elem_of_here.
  - vm_compute. apply list_elem_of_here.
  - vm_compute. reflexivity.
  - vm_compute. reflexivity.
Defined.

(** X10 at the ten candidates: the one left out by the cap ranks below the
    first selected one. *)
Lemma rankAndDedupe_cap_drops_lowest_witness :
  (_boostedScore boosted_semesterticket <=? _boostedScore boosted_stucafe)%float = true.
Proof.
  apply (rankAndDedupe_cap_drops_lowest asciiLower ten_candidates dorm
           boosted_stucafe boosted_semesterticket).
  - repeat constructor.
  - vm_compute. apply list_elem_of_here.
  - vm_compute. do 7 apply list_elem_of_further. apply list_elem_of_here.
  - vm_compute. reflexivity.
  - intros H. apply list_elem_of_In in H. vm_compute in H. intuition discriminate.
Defined.


(** X14 at a conversation whose first message is [null]. *)
Lemma POST_null_in_window_witness :
  exists resp : Response,
    POST asciiLower None (silent_services ten_candidates) (inr null_then_user) []
    = (inr resp, [])
    /\ status resp = 500.
Proof.
  eapply (POST_null_in_window asciiLower None (silent_services ten_candidates)
            null_then_user).
  - reflexivity.
  - reflexivity.
  - eexists _, cheap_dorms. split; [reflexivity|]. split; [reflexivity|].
    split; [reflexivity|]. vm_compute. discriminate.
  - exists VNull. split; [vm_compute; apply list_elem_of_here|reflexivity].
Defined.

(** X20 at the sample request and services that answer. *)
Lemma POST_ok_when_services_answer_witness :
  exists (resp : Response) (calls : list Call),
    POST asciiLower None (silent_services ten_candidates) (inr sample_request) []
    = (inr resp, [] ++ calls)
    /\ status resp = 200.
Proof.
  apply POST_ok_when_services_answer.
  - apply silent_services_answer.
  - apply sample_request_valid.
  - apply sample_request_valid.
Defined.

(** X21 at the sample request and an embedding model out of quota. *)
Lemma POST_embedding_down_witness :
  exists r1 e1,
    POST asciiLower None (embedding_down (lit "quota exceeded")) (inr sample_request) []
    = (inr (json_response (error_body (lit "quota exceeded")) 500),
       [] ++ [CallChat r1; CallEmbed e1]).
Proof.
  apply POST_embedding_down.
  - intros r later _. eexists. reflexivity.
  - intros r e later _. reflexivity.
  - apply sample_request_valid.
  - apply sample_request_valid.
Defined.

(** X24 at the page as it opens: the question and an answer are appended. *)
Lemma sendMessage_never_rejected_witness :
  ps_input (sendMessage (endpoint asciiLower None (silent_services ten_candidates) [])
              1700000000000%N 1700000000900%N sample_page) = []
  /\ ps_loading (sendMessage (endpoint asciiLower None (silent_services ten_candidates) [])
                   1700000000000%N 1700000000900%N sample_page) = false.
Proof.
  assert (Hs : can_send sample_page) by (split; [vm_compute; discriminate|reflexivity]).
  destruct (sendMessage_never_rejected asciiLower None (silent_services ten_candidates) []
              1700000000000%N 1700000000900%N sample_page Hs) as (Hi & Hl & _).
  split; [exact Hi|exact Hl].
Defined.

(** X26 at a dorm under intent dorm. *)
Lemma boost_shows_in_label_witness :
  scoreBoost asciiLower (entity "v1" "dorm" "Olydorf" "Type: dorm. Rent: 350." 0.61) dorm
  <> 0%float
  <-> typeLabel asciiLower (Some (mc_type olydorf_card)) = lit "Dorm".
Proof.
  apply (boost_shows_in_label asciiLower
           (entity "v1" "dorm" "Olydorf" "Type: dorm. Rent: 350." 0.61) dorm olydorf_card).
  - reflexivity.
  - vm_compute. reflexivity.
  - vm_compute. reflexivity.
Defined.

(** X27 at a study place, boosted under the intent of a question about a
    library and under intent study_place. *)
Lemma scoreBoost_one_intent_witness :
  inferIntent asciiLower (Some (lit "a quiet library")) = study_place.
Proof.
  apply (scoreBoost_one_intent asciiLower
           (entity "v2" "study_place" "StuCafe" "Type: study place. Wifi: yes." 0.70)).
  - intros H. apply (f_equal (fun x => PrimFloat.eqb x 0)) in H. vm_compute in H. discriminate.
  - intros H. apply (f_equal (fun x => PrimFloat.eqb x 0)) in H. vm_compute in H. discriminate.
Defined.
